(** * body-scroll-lock: a shallow embedding of [src/bodyScrollLock.js]

    The module keeps six module-level variables and a [Map] of body-level
    handlers, reads a handful of host properties (platform string, viewport
    widths, scroll metrics) and writes three inline styles of the document,
    the listener list of [document.body] and the [ontouchstart] /
    [ontouchmove] properties of its targets.  All of this is explicit state
    here:

    - JavaScript numbers that may carry a fraction ([clientY], [scrollTop],
      [scrollHeight], [clientHeight], [initialClientY]) are binary64 floats;
      the two viewport widths are integers, as the DOM has them;
    - [undefined] is [None]; a target is [null], [undefined] or an element,
      and elements are compared by identity;
    - [setTimeout(callback)] appends to a queue of pending callbacks, which
      the scheduler runs one at a time, oldest first;
    - a function object created by the module is the closure's code together
      with what it captured; the body-level handler also carries an identity,
      since [removeEventListener] compares functions by identity;
    - a call either returns or throws, and leaves a state either way.

    [src/unnamed/part_000] is the same module with its type annotations
    stripped. *)

From Stdlib Require Import PrimFloat ZArith String.
From stdpp Require Import base decidable option list gmap strings pretty.

Local Open Scope string_scope.

(** ** JavaScript values the module handles *)

(** DOM elements are compared by identity only. *)
Definition Elem := positive.

(** The [targetElement: any] argument: a DOM element, or an absent target
    ([null] or [undefined], which [===] tells apart). *)
Inductive JsTarget :=
| JsNull
| JsUndefined
| JsElem (e : Elem).

#[global] Instance JsTarget_eq_dec : EqDecision JsTarget.
Proof. solve_decision. Defined.

(** [!!t] *)
Definition truthy (t : JsTarget) : bool :=
  match t with JsElem _ => true | _ => false end.

(** [a === b] *)
Definition strict_eq (a b : JsTarget) : bool := bool_decide (a = b).

(** [interface BodyScrollOptions { reserveScrollBarGap?: boolean }]; the
    [options] argument itself is optional. *)
Record BodyScrollOptions := { reserveScrollBarGap : option bool }.

(** [!!options && options.reserveScrollBarGap === true] *)
Definition reserve_requested (options : option BodyScrollOptions) : bool :=
  match options with
  | Some o => match reserveScrollBarGap o with Some true => true | _ => false end
  | None => false
  end.

(** ** The platform test (lines 9-13) *)

Module Platform.

(** What [typeof window], [window.navigator] and
    [window.navigator.platform] report. *)
Inductive Runtime :=
| NoWindow
| NoNavigator
| Navigator (platform : option string).

(** [lit] occurs somewhere in [s]. *)
Fixpoint occurs (lit s : string) : bool :=
  String.prefix lit s ||
  match s with
  | EmptyString => false
  | String _ rest => occurs lit rest
  end.

(** The alternatives of
    [/iPad|iPhone|iPod|(iPad Simulator)|(iPhone Simulator)|(iPod Simulator)/]. *)
Definition alternatives : list string :=
  ["iPad"; "iPhone"; "iPod"; "iPad Simulator"; "iPhone Simulator"; "iPod Simulator"].

(** [regex.test(s)]: the pattern is not anchored. *)
Definition test (s : string) : bool := existsb (fun lit => occurs lit s) alternatives.

(** The truthiness of the [&&] chain that defines [isIosDevice]. *)
Definition detect (r : Runtime) : bool :=
  match r with
  | NoWindow => false
  | NoNavigator => false
  | Navigator None => false
  | Navigator (Some p) => negb (String.eqb p "") && test p
  end.

End Platform.

(** ** Host, document and module state *)

(** [element.scrollTop], [element.scrollHeight], [element.clientHeight]:
    JavaScript numbers. *)
Record Metrics := {
  scrollTop : float;
  scrollHeight : float;
  clientHeight : float }.

(** What the module only reads. [innerWidth] and [clientWidth] are the
    integer-valued [window.innerWidth] and
    [document.documentElement.clientWidth]. *)
Record Host := {
  runtime : Platform.Runtime;
  innerWidth : Z;
  clientWidth : Z;
  metrics : Elem -> Metrics;
  contains : Elem -> Elem -> bool }.

Record Touch := { clientY : float }.

Record TouchEvent := {
  target : Elem;
  targetTouches : list Touch;
  defaultPrevented : bool }.

(** Functions stored in [ontouchstart] / [ontouchmove]: the two closures of
    lines 121-132 over their [targetElement], or a function of the page. *)
Inductive Callback :=
| Foreign (n : nat)
| TouchStartCb (targetElement : Elem)
| TouchMoveCb (targetElement : Elem).

(** The closure of lines 108-112. Every evaluation of the arrow function is
    a new function object; [closure_id] is its identity. *)
Record BodyHandler := {
  closure_id : nat;
  closure_target : Elem }.

#[global] Instance BodyHandler_eq_dec : EqDecision BodyHandler.
Proof. solve_decision. Defined.

Inductive EventType := touchstart | touchmove.

#[global] Instance EventType_eq_dec : EqDecision EventType.
Proof. solve_decision. Defined.

Record Listener := {
  listener_type : EventType;
  listener_handler : BodyHandler }.

#[global] Instance Listener_eq_dec : EqDecision Listener.
Proof. solve_decision. Defined.

(** What the module writes in the document. A missing key of [ontouchstart]
    or [ontouchmove] is a [null] property. *)
Record Doc := {
  bodyOverflow : string;
  docElOverflow : string;
  bodyPaddingRight : string;
  bodyListeners : list Listener;
  ontouchstart : gmap Elem Callback;
  ontouchmove : gmap Elem Callback }.

(** The module-level variables (lines 9-21 and 99). [None] is [undefined].
    [handlers] is a [Map], which iterates in insertion order. *)
Record Vars := {
  isIosDevice : bool;
  firstTargetElement : JsTarget;
  allTargetElements : list Elem;
  initialClientY : float;
  previousBodyOverflowSetting : option string;
  previousDocumentElementOverflowSetting : option string;
  previousBodyPaddingRight : option string;
  handlers : list (Elem * BodyHandler) }.

(** The callbacks handed to [setTimeout] (lines 33 and 58). *)
Inductive Task :=
| HideOverflow (options : option BodyScrollOptions)
| RestoreOverflow.

Record State := {
  host : Host;
  doc : Doc;
  vars : Vars;
  timers : list Task;
  closures : nat }.

Inductive Outcome :=
| Returns (s : State)
| Throws (s : State).

Definition after (o : Outcome) : State :=
  match o with Returns s => s | Throws s => s end.

(** *** Field updates *)

Definition with_doc (f : Doc -> Doc) (s : State) : State :=
  {| host := host s; doc := f (doc s); vars := vars s;
     timers := timers s; closures := closures s |}.

Definition with_vars (f : Vars -> Vars) (s : State) : State :=
  {| host := host s; doc := doc s; vars := f (vars s);
     timers := timers s; closures := closures s |}.

Definition with_timers (f : list Task -> list Task) (s : State) : State :=
  {| host := host s; doc := doc s; vars := vars s;
     timers := f (timers s); closures := closures s |}.

Definition with_host (h : Host) (s : State) : State :=
  {| host := h; doc := doc s; vars := vars s;
     timers := timers s; closures := closures s |}.

Definition next_closure (s : State) : State :=
  {| host := host s; doc := doc s; vars := vars s;
     timers := timers s; closures := S (closures s) |}.

Definition set_bodyOverflow (v : string) (d : Doc) : Doc :=
  {| bodyOverflow := v; docElOverflow := docElOverflow d;
     bodyPaddingRight := bodyPaddingRight d; bodyListeners := bodyListeners d;
     ontouchstart := ontouchstart d; ontouchmove := ontouchmove d |}.

Definition set_docElOverflow (v : string) (d : Doc) : Doc :=
  {| bodyOverflow := bodyOverflow d; docElOverflow := v;
     bodyPaddingRight := bodyPaddingRight d; bodyListeners := bodyListeners d;
     ontouchstart := ontouchstart d; ontouchmove := ontouchmove d |}.

Definition set_bodyPaddingRight (v : string) (d : Doc) : Doc :=
  {| bodyOverflow := bodyOverflow d; docElOverflow := docElOverflow d;
     bodyPaddingRight := v; bodyListeners := bodyListeners d;
     ontouchstart := ontouchstart d; ontouchmove := ontouchmove d |}.

Definition set_bodyListeners (v : list Listener) (d : Doc) : Doc :=
  {| bodyOverflow := bodyOverflow d; docElOverflow := docElOverflow d;
     bodyPaddingRight := bodyPaddingRight d; bodyListeners := v;
     ontouchstart := ontouchstart d; ontouchmove := ontouchmove d |}.

Definition set_ontouchstart (v : gmap Elem Callback) (d : Doc) : Doc :=
  {| bodyOverflow := bodyOverflow d; docElOverflow := docElOverflow d;
     bodyPaddingRight := bodyPaddingRight d; bodyListeners := bodyListeners d;
     ontouchstart := v; ontouchmove := ontouchmove d |}.

Definition set_ontouchmove (v : gmap Elem Callback) (d : Doc) : Doc :=
  {| bodyOverflow := bodyOverflow d; docElOverflow := docElOverflow d;
     bodyPaddingRight := bodyPaddingRight d; bodyListeners := bodyListeners d;
     ontouchstart := ontouchstart d; ontouchmove := v |}.

Definition set_firstTargetElement (v : JsTarget) (m : Vars) : Vars :=
  {| isIosDevice := isIosDevice m; firstTargetElement := v;
     allTargetElements := allTargetElements m; initialClientY := initialClientY m;
     previousBodyOverflowSetting := previousBodyOverflowSetting m;
     previousDocumentElementOverflowSetting := previousDocumentElementOverflowSetting m;
     previousBodyPaddingRight := previousBodyPaddingRight m; handlers := handlers m |}.

Definition set_allTargetElements (v : list Elem) (m : Vars) : Vars :=
  {| isIosDevice := isIosDevice m; firstTargetElement := firstTargetElement m;
     allTargetElements := v; initialClientY := initialClientY m;
     previousBodyOverflowSetting := previousBodyOverflowSetting m;
     previousDocumentElementOverflowSetting := previousDocumentElementOverflowSetting m;
     previousBodyPaddingRight := previousBodyPaddingRight m; handlers := handlers m |}.

Definition set_initialClientY (v : float) (m : Vars) : Vars :=
  {| isIosDevice := isIosDevice m; firstTargetElement := firstTargetElement m;
     allTargetElements := allTargetElements m; initialClientY := v;
     previousBodyOverflowSetting := previousBodyOverflowSetting m;
     previousDocumentElementOverflowSetting := previousDocumentElementOverflowSetting m;
     previousBodyPaddingRight := previousBodyPaddingRight m; handlers := handlers m |}.

Definition set_previousBodyOverflowSetting (v : option string) (m : Vars) : Vars :=
  {| isIosDevice := isIosDevice m; firstTargetElement := firstTargetElement m;
     allTargetElements := allTargetElements m; initialClientY := initialClientY m;
     previousBodyOverflowSetting := v;
     previousDocumentElementOverflowSetting := previousDocumentElementOverflowSetting m;
     previousBodyPaddingRight := previousBodyPaddingRight m; handlers := handlers m |}.

Definition set_previousDocumentElementOverflowSetting (v : option string) (m : Vars) : Vars :=
  {| isIosDevice := isIosDevice m; firstTargetElement := firstTargetElement m;
     allTargetElements := allTargetElements m; initialClientY := initialClientY m;
     previousBodyOverflowSetting := previousBodyOverflowSetting m;
     previousDocumentElementOverflowSetting := v;
     previousBodyPaddingRight := previousBodyPaddingRight m; handlers := handlers m |}.

Definition set_previousBodyPaddingRight (v : option string) (m : Vars) : Vars :=
  {| isIosDevice := isIosDevice m; firstTargetElement := firstTargetElement m;
     allTargetElements := allTargetElements m; initialClientY := initialClientY m;
     previousBodyOverflowSetting := previousBodyOverflowSetting m;
     previousDocumentElementOverflowSetting := previousDocumentElementOverflowSetting m;
     previousBodyPaddingRight := v; handlers := handlers m |}.

Definition set_handlers (v : list (Elem * BodyHandler)) (m : Vars) : Vars :=
  {| isIosDevice := isIosDevice m; firstTargetElement := firstTargetElement m;
     allTargetElements := allTargetElements m; initialClientY := initialClientY m;
     previousBodyOverflowSetting := previousBodyOverflowSetting m;
     previousDocumentElementOverflowSetting := previousDocumentElementOverflowSetting m;
     previousBodyPaddingRight := previousBodyPaddingRight m; handlers := v |}.

(** ** Host primitives *)

(** [Map.prototype.set], [get] and [delete] on the insertion-ordered
    [handlers]. *)
Fixpoint map_set (k : Elem) (v : BodyHandler) (m : list (Elem * BodyHandler))
  : list (Elem * BodyHandler) :=
  match m with
  | [] => [(k, v)]
  | (k', v') :: rest =>
      if decide (k' = k) then (k, v) :: rest else (k', v') :: map_set k v rest
  end.

Fixpoint map_get (k : Elem) (m : list (Elem * BodyHandler)) : option BodyHandler :=
  match m with
  | [] => None
  | (k', v) :: rest => if decide (k' = k) then Some v else map_get k rest
  end.

Definition map_delete (k : Elem) (m : list (Elem * BodyHandler))
  : list (Elem * BodyHandler) :=
  filter (fun p => p.1 <> k) m.

(** [document.body.addEventListener(type, callback, { passive: false })]:
    nothing happens for an [undefined] callback or for a listener that is
    already registered. *)
Definition addEventListener (ty : EventType) (callback : option BodyHandler)
    (d : Doc) : Doc :=
  match callback with
  | None => d
  | Some h =>
      let l := {| listener_type := ty; listener_handler := h |} in
      if bool_decide (l ∈ bodyListeners d) then d
      else set_bodyListeners (bodyListeners d ++ [l])%list d
  end.

(** [document.body.removeEventListener(type, callback)] *)
Definition removeEventListener (ty : EventType) (callback : option BodyHandler)
    (d : Doc) : Doc :=
  match callback with
  | None => d
  | Some h =>
      let l := {| listener_type := ty; listener_handler := h |} in
      set_bodyListeners (filter (fun l' => l' <> l) (bodyListeners d)) d
  end.

(** [setTimeout(callback)]: callbacks run later, oldest first. *)
Definition setTimeout (t : Task) (s : State) : State :=
  with_timers (fun q => (q ++ [t])%list) s.

(** [e.preventDefault()] on a cancelable event. *)
Definition preventDefault (rawEvent : TouchEvent) : bool * TouchEvent :=
  (false,
   {| target := target rawEvent; targetTouches := targetTouches rawEvent;
      defaultPrevented := true |}).

(** ** The module's functions *)

(** [window.innerWidth - document.documentElement.clientWidth] *)
Definition scrollBarGap (h : Host) : Z := (innerWidth h - clientWidth h)%Z.

(** The callback of [setOverflowHidden] (lines 34-51). *)
Definition hideOverflowCallback (options : option BodyScrollOptions) (s : State)
  : State :=
  let s1 :=
    match previousBodyPaddingRight (vars s) with
    | None =>
        if reserve_requested options && bool_decide (0 < scrollBarGap (host s))%Z then
          with_doc (set_bodyPaddingRight (pretty (scrollBarGap (host s)) +:+ "px"))
            (with_vars (set_previousBodyPaddingRight (Some (bodyPaddingRight (doc s)))) s)
        else s
    | Some _ => s
    end in
  match previousBodyOverflowSetting (vars s1) with
  | None =>
      let s2 := with_vars
                  (set_previousBodyOverflowSetting (Some (bodyOverflow (doc s1)))) s1 in
      let s3 := with_vars
                  (set_previousDocumentElementOverflowSetting
                     (Some (docElOverflow (doc s2)))) s2 in
      with_doc (set_docElOverflow "hidden") (with_doc (set_bodyOverflow "hidden") s3)
  | Some _ => s1
  end.

(** The callback of [restoreOverflowSetting] (lines 59-75). Assigning
    [undefined] to an inline style leaves the style as it is. *)
Definition restoreOverflowCallback (s : State) : State :=
  let s1 :=
    match previousBodyPaddingRight (vars s) with
    | Some v =>
        with_vars (set_previousBodyPaddingRight None)
          (with_doc (set_bodyPaddingRight v) s)
    | None => s
    end in
  match previousBodyOverflowSetting (vars s1) with
  | Some v =>
      let s2 := with_doc (set_bodyOverflow v) s1 in
      let s3 :=
        match previousDocumentElementOverflowSetting (vars s2) with
        | Some w => with_doc (set_docElOverflow w) s2
        | None => s2
        end in
      with_vars (set_previousDocumentElementOverflowSetting None)
        (with_vars (set_previousBodyOverflowSetting None) s3)
  | None => s1
  end.

Definition setOverflowHidden (options : option BodyScrollOptions) (s : State)
  : State :=
  setTimeout (HideOverflow options) s.

Definition restoreOverflowSetting (s : State) : State :=
  setTimeout RestoreOverflow s.

(** Lines 80-81. *)
Definition isTargetElementTotallyScrolled (targetElement : JsTarget) (h : Host)
  : bool :=
  match targetElement with
  | JsElem e =>
      PrimFloat.leb
        (PrimFloat.sub (scrollHeight (metrics h e)) (scrollTop (metrics h e)))
        (clientHeight (metrics h e))
  | _ => false
  end.

(** Lines 83-97. [None] is the [TypeError] of reading [clientY] of a missing
    [targetTouches[0]]; otherwise the returned boolean and the event. *)
Definition handleScroll (event : TouchEvent) (targetElement : JsTarget) (s : State)
  : option (bool * TouchEvent) :=
  match targetTouches event with
  | [] => None
  | touch0 :: _ =>
      let clientY := PrimFloat.sub (clientY touch0) (initialClientY (vars s)) in
      if match targetElement with
         | JsElem e => PrimFloat.eqb (scrollTop (metrics (host s) e)) 0
         | _ => false
         end && PrimFloat.ltb 0 clientY
      then Some (preventDefault event)
      else if isTargetElementTotallyScrolled targetElement (host s)
              && PrimFloat.ltb clientY 0
      then Some (preventDefault event)
      else Some (true, event)
  end.

(** The closure of lines 121-126. *)
Definition onTouchStart (event : TouchEvent) (s : State) : State :=
  match targetTouches event with
  | [touch0] => with_vars (set_initialClientY (clientY touch0)) s
  | _ => s
  end.

(** The closure of lines 127-132; its result is the event as the closure
    leaves it. *)
Definition onTouchMove (targetElement : Elem) (event : TouchEvent) (s : State)
  : option TouchEvent :=
  match targetTouches event with
  | [_] => snd <$> handleScroll event (JsElem targetElement) s
  | _ => Some event
  end.

(** The closure of lines 108-112. *)
Definition onBodyTouch (h : BodyHandler) (event : TouchEvent) (s : State)
  : TouchEvent :=
  if negb (contains (host s) (closure_target h) (target event))
  then snd (preventDefault event)
  else event.

(** Lines 106-132: what [disableBodyScroll] does for a target that is not
    yet in [allTargetElements]. *)
Definition registerTarget (targetElement : Elem) (s : State) : State :=
  let s1 := with_vars
              (fun m => set_allTargetElements (allTargetElements m ++ [targetElement])%list m)
              s in
  let s2 := next_closure
              (with_vars
                 (fun m => set_handlers
                             (map_set targetElement
                                {| closure_id := closures s1;
                                   closure_target := targetElement |}
                                (handlers m)) m)
                 s1) in
  let s3 := with_doc
              (addEventListener touchstart (map_get targetElement (handlers (vars s2))))
              s2 in
  let s4 := with_doc
              (addEventListener touchmove (map_get targetElement (handlers (vars s3))))
              s3 in
  let s5 := with_doc
              (fun d => set_ontouchstart
                          (<[targetElement := TouchStartCb targetElement]> (ontouchstart d)) d)
              s4 in
  with_doc
    (fun d => set_ontouchmove
                (<[targetElement := TouchMoveCb targetElement]> (ontouchmove d)) d)
    s5.

(** Lines 101-139. *)
Definition disableBodyScroll (targetElement : JsTarget)
    (options : option BodyScrollOptions) (s : State) : Outcome :=
  let s1 :=
    if isIosDevice (vars s) then
      match targetElement with
      | JsElem e =>
          if negb (bool_decide (e ∈ allTargetElements (vars s)))
          then registerTarget e s
          else s
      | _ => s
      end
    else setOverflowHidden options s in
  Returns
    (if negb (truthy (firstTargetElement (vars s1)))
     then with_vars (set_firstTargetElement targetElement) s1
     else s1).

(** The body of the first [forEach] of [clearAllBodyScrollLocks]
    (lines 144-145). *)
Definition removeHandler (handler : BodyHandler) (s : State) : State :=
  with_doc (removeEventListener touchmove (Some handler))
    (with_doc (removeEventListener touchstart (Some handler)) s).

(** The body of its second [forEach] (lines 151-154). *)
Definition clearTarget (targetElement : Elem) (s : State) : State :=
  with_vars (set_allTargetElements [])
    (with_doc (fun d => set_ontouchmove (delete targetElement (ontouchmove d)) d)
       (with_doc (fun d => set_ontouchstart (delete targetElement (ontouchstart d)) d)
          s)).

(** Lines 141-164. The assignment inside the second [forEach] does not
    change the array being iterated. *)
Definition clearAllBodyScrollLocks (s : State) : Outcome :=
  let s1 :=
    if isIosDevice (vars s) then
      let sa := fold_left (fun acc kv => removeHandler kv.2 acc) (handlers (vars s)) s in
      let sb := with_vars (set_handlers []) sa in
      let sc := fold_left (fun acc targetElement => clearTarget targetElement acc)
                  (allTargetElements (vars sb)) sb in
      with_vars (set_initialClientY (-1)%float) sc
    else restoreOverflowSetting s in
  Returns (with_vars (set_firstTargetElement JsNull) s1).

(** The body of the [forEach] of [enableBodyScroll] (lines 169-177). *)
Definition releaseTarget (targetElement : JsTarget) (s : State) (target : Elem)
  : State :=
  if strict_eq targetElement (JsElem target) then
    let s1 := with_doc
                (removeEventListener touchstart (map_get target (handlers (vars s))))
                s in
    let s2 := with_doc
                (removeEventListener touchmove (map_get target (handlers (vars s1))))
                s1 in
    let s3 := with_vars (fun m => set_handlers (map_delete target (handlers m)) m) s2 in
    if strict_eq targetElement (firstTargetElement (vars s3))
    then with_vars (set_firstTargetElement JsNull) s3
    else s3
  else s.

(** Lines 166-188. Writing a property of [null] or [undefined] throws. *)
Definition enableBodyScroll (targetElement : JsTarget) (s : State) : Outcome :=
  if isIosDevice (vars s) then
    let s1 := fold_left (releaseTarget targetElement) (allTargetElements (vars s)) s in
    match targetElement with
    | JsElem e =>
        let s2 := with_doc (fun d => set_ontouchstart (delete e (ontouchstart d)) d) s1 in
        let s3 := with_doc (fun d => set_ontouchmove (delete e (ontouchmove d)) d) s2 in
        Returns
          (with_vars
             (fun m => set_allTargetElements
                         (filter (fun elem => elem <> e) (allTargetElements m)) m)
             s3)
    | _ => Throws s1
    end
  else if strict_eq (firstTargetElement (vars s)) targetElement then
    Returns (with_vars (set_firstTargetElement JsNull) (restoreOverflowSetting s))
  else Returns s.

(** ** The scheduler, the page and the callers *)

Definition run_task (t : Task) (s : State) : State :=
  match t with
  | HideOverflow options => hideOverflowCallback options s
  | RestoreOverflow => restoreOverflowCallback s
  end.

(** The scheduler runs the oldest pending callback, if there is one. *)
Definition tick (s : State) : State :=
  match timers s with
  | [] => s
  | t :: q => run_task t (with_timers (fun _ => q) s)
  end.

(** The scheduler runs every pending callback, oldest first. *)
Definition settle (s : State) : State :=
  fold_left (fun acc t => run_task t acc) (timers s) (with_timers (fun _ => []) s).

(** The page before the module is loaded: its inline styles and the
    elements that already have touch callbacks of their own. *)
Record Page := {
  page_bodyOverflow : string;
  page_docElOverflow : string;
  page_bodyPaddingRight : string;
  page_ontouchstart : gmap Elem nat;
  page_ontouchmove : gmap Elem nat }.

(** Evaluating the module (lines 9-21 and 99): [isIosDevice] is computed
    here, once. *)
Definition load (h : Host) (p : Page) : State :=
  {| host := h;
     doc := {| bodyOverflow := page_bodyOverflow p;
               docElOverflow := page_docElOverflow p;
               bodyPaddingRight := page_bodyPaddingRight p;
               bodyListeners := [];
               ontouchstart := Foreign <$> page_ontouchstart p;
               ontouchmove := Foreign <$> page_ontouchmove p |};
     vars := {| isIosDevice := Platform.detect (runtime h);
                firstTargetElement := JsNull;
                allTargetElements := [];
                initialClientY := (-1)%float;
                previousBodyOverflowSetting := None;
                previousDocumentElementOverflowSetting := None;
                previousBodyPaddingRight := None;
                handlers := [] |};
     timers := [];
     closures := 0 |}.

(** The host calls [e.ontouchmove(event)]. *)
Definition elementTouchMove (e : Elem) (event : TouchEvent) (s : State)
  : option TouchEvent :=
  match ontouchmove (doc s) !! e with
  | Some (TouchMoveCb targetElement) => onTouchMove targetElement event s
  | _ => Some event
  end.

(** What can happen to the module: calls of its three exports, a scheduler
    turn, the host calling [e.ontouchstart(event)], and the host changing
    what it reports. (The [ontouchmove] and body-level closures change no
    state.) *)
Inductive Action :=
| Lock (targetElement : JsTarget) (options : option BodyScrollOptions)
| Unlock (targetElement : JsTarget)
| UnlockAll
| Tick
| ElementTouchStart (e : Elem) (event : TouchEvent)
| HostChange (h : Host).

Definition exec (a : Action) (s : State) : Outcome :=
  match a with
  | Lock targetElement options => disableBodyScroll targetElement options s
  | Unlock targetElement => enableBodyScroll targetElement s
  | UnlockAll => clearAllBodyScrollLocks s
  | Tick => Returns (tick s)
  | ElementTouchStart e event =>
      Returns match ontouchstart (doc s) !! e with
              | Some (TouchStartCb _) => onTouchStart event s
              | _ => s
              end
  | HostChange h => Returns (with_host h s)
  end.

(** An exception goes to the caller; the module's state stays as the call
    left it and later calls go on from there. *)
Definition run (acts : list Action) (s : State) : State :=
  fold_left (fun acc a => after (exec a acc)) acts s.

(** ** Sample hosts and pages *)

Definition plain_metrics (e : Elem) : Metrics :=
  {| scrollTop := 0%float; scrollHeight := 300%float; clientHeight := 100%float |}.

Definition sample_host (platform : string) (inner client : Z) : Host :=
  {| runtime := Platform.Navigator (Some platform);
     innerWidth := inner; clientWidth := client;
     metrics := plain_metrics;
     contains := Pos.eqb |}.

Definition desktop : Host := sample_host "MacIntel" 1015 1000.
Definition phone : Host := sample_host "iPhone" 375 375.

Definition sample_page : Page :=
  {| page_bodyOverflow := "auto"; page_docElOverflow := "";
     page_bodyPaddingRight := "4px";
     page_ontouchstart := ∅; page_ontouchmove := ∅ |}.

(** A page whose element 2 has touch callbacks of its own. *)
Definition busy_page : Page :=
  {| page_bodyOverflow := "auto"; page_docElOverflow := "";
     page_bodyPaddingRight := "4px";
     page_ontouchstart := {[ 2%positive := 0 ]};
     page_ontouchmove := {[ 2%positive := 1 ]} |}.

Definition elemA : Elem := 1%positive.
Definition elemB : Elem := 2%positive.

Definition one_touch (e : Elem) (y : float) : TouchEvent :=
  {| target := e; targetTouches := [{| clientY := y |}]; defaultPrevented := false |}.

(** ** Notions the statements use *)

(** The inline styles and their saved copies. *)
Definition overflow_view (s : State) :=
  (bodyOverflow (doc s), docElOverflow (doc s), bodyPaddingRight (doc s),
   previousBodyOverflowSetting (vars s),
   previousDocumentElementOverflowSetting (vars s),
   previousBodyPaddingRight (vars s)).

(** The touch-path bookkeeping. *)
Definition touch_view (s : State) :=
  (allTargetElements (vars s), handlers (vars s), initialClientY (vars s),
   bodyListeners (doc s), ontouchstart (doc s), ontouchmove (doc s), closures s).

(** Everything the touch path never writes. *)
Definition standard_view (s : State) :=
  (overflow_view s, timers s, host s, isIosDevice (vars s)).

(** The touch-path bookkeeping is coherent: the [handlers] map has exactly
    the registered targets as keys, the body listeners are those of the
    map, and the module's element callbacks sit exactly on the registered
    targets. *)
Record registry_ok (s : State) : Prop := {
  ok_nodup : NoDup (allTargetElements (vars s));
  ok_keys : (handlers (vars s)).*1 = allTargetElements (vars s);
  ok_closures : forall k h, (k, h) ∈ handlers (vars s) ->
    closure_target h = k /\ closure_id h < closures s;
  ok_listeners : forall l, l ∈ bodyListeners (doc s) ->
    (closure_target (listener_handler l), listener_handler l) ∈ handlers (vars s);
  ok_start : forall e cb, ontouchstart (doc s) !! e = Some cb ->
    (exists n, cb = Foreign n) \/
    (cb = TouchStartCb e /\ e ∈ allTargetElements (vars s));
  ok_move : forall e cb, ontouchmove (doc s) !! e = Some cb ->
    (exists n, cb = Foreign n) \/
    (cb = TouchMoveCb e /\ e ∈ allTargetElements (vars s));
  ok_installed : forall e, e ∈ allTargetElements (vars s) ->
    ontouchstart (doc s) !! e = Some (TouchStartCb e) /\
    ontouchmove (doc s) !! e = Some (TouchMoveCb e);
  ok_standard : isIosDevice (vars s) = false ->
    allTargetElements (vars s) = [] /\ initialClientY (vars s) = (-1)%float }.

(** [e.ontouchstart = null] for every [e] of a list. *)
Definition delete_all (l : list Elem) (m : gmap Elem Callback) : gmap Elem Callback :=
  fold_left (fun acc e => delete e acc) l m.

(** The saved styles are the page's own: while an overflow capture is held
    it holds the page's two overflow styles and both styles are "hidden";
    while none is held the styles are the page's.  Likewise for the
    padding. *)
Definition styles_ok (p : Page) (s : State) : Prop :=
  match previousBodyOverflowSetting (vars s) with
  | Some v =>
      v = page_bodyOverflow p /\
      previousDocumentElementOverflowSetting (vars s) = Some (page_docElOverflow p) /\
      bodyOverflow (doc s) = "hidden" /\ docElOverflow (doc s) = "hidden"
  | None =>
      previousDocumentElementOverflowSetting (vars s) = None /\
      bodyOverflow (doc s) = page_bodyOverflow p /\
      docElOverflow (doc s) = page_docElOverflow p
  end /\
  match previousBodyPaddingRight (vars s) with
  | Some v => v = page_bodyPaddingRight p
  | None => bodyPaddingRight (doc s) = page_bodyPaddingRight p
  end.

(** On the touch path no callback is ever scheduled and nothing is saved. *)
Definition touch_idle (s : State) : Prop :=
  isIosDevice (vars s) = true ->
  timers s = [] /\
  previousBodyOverflowSetting (vars s) = None /\
  previousDocumentElementOverflowSetting (vars s) = None /\
  previousBodyPaddingRight (vars s) = None.

(** [k] scheduler turns. *)
Fixpoint ticks (k : nat) (s : State) : State :=
  match k with
  | O => s
  | S k' => tick (ticks k' s)
  end.

(** A scheduler turn, as opposed to a call or a host event. *)
Definition is_tick (a : Action) : bool :=
  match a with Tick => true | _ => false end.

(** The calls of the exports in a trace. *)
Definition calls (acts : list Action) : list Action :=
  List.filter (fun a => negb (is_tick a)) acts.

(** A call of one of the three exports. *)
Definition is_call (a : Action) : bool :=
  match a with Lock _ _ | Unlock _ | UnlockAll => true | _ => false end.

(** What a call of an export amounts to on the standard path when its
    callback runs at once. *)
Definition settled_exec (a : Action) (s : State) : State :=
  match a with
  | Lock targetElement options =>
      let s1 := hideOverflowCallback options s in
      if negb (truthy (firstTargetElement (vars s1)))
      then with_vars (set_firstTargetElement targetElement) s1
      else s1
  | Unlock targetElement =>
      if strict_eq (firstTargetElement (vars s)) targetElement
      then with_vars (set_firstTargetElement JsNull) (restoreOverflowCallback s)
      else s
  | UnlockAll => with_vars (set_firstTargetElement JsNull) (restoreOverflowCallback s)
  | _ => s
  end.

(** A trace of calls, each with an immediate callback. *)
Definition settled_run (acts : list Action) (s : State) : State :=
  fold_left (fun acc a => settled_exec a acc) acts s.

(** An overflow capture is held. *)
Definition capture_held (s : State) : bool :=
  match previousBodyOverflowSetting (vars s) with Some _ => true | None => false end.

(** Whether a capture is held once the callbacks of [q] have run. *)
Definition held_after (q : list Task) (held : bool) : bool :=
  fold_left (fun _ t => match t with HideOverflow _ => true | RestoreOverflow => false end)
    q held.

(** While [firstTargetElement] is set on the standard path, a capture is
    held or will be once the pending callbacks have run. *)
Definition owner_holds (s : State) : Prop :=
  isIosDevice (vars s) = false ->
  truthy (firstTargetElement (vars s)) = true ->
  held_after (timers s) (capture_held s) = true.

(** The options [{ reserveScrollBarGap: true }]. *)
Definition reserve : option BodyScrollOptions :=
  Some {| reserveScrollBarGap := Some true |}.

(** Nulling both touch callbacks of an element (lines 180-181). *)
Definition null_callbacks (e : Elem) (s : State) : State :=
  with_doc (fun d => set_ontouchmove (delete e (ontouchmove d)) d)
    (with_doc (fun d => set_ontouchstart (delete e (ontouchstart d)) d) s).

(** The two listeners that [disableBodyScroll] puts on [document.body] for
    a handler (lines 114-119). *)
Definition listeners_of (h : BodyHandler) : list Listener :=
  [{| listener_type := touchstart; listener_handler := h |};
   {| listener_type := touchmove; listener_handler := h |}].

(** The host delivers an event of type [ty] to [document.body]: it calls the
    listeners registered for [ty], in the order of their registration. *)
Definition bodyDispatch (ty : EventType) (event : TouchEvent) (s : State) : TouchEvent :=
  fold_left
    (fun ev l =>
       if bool_decide (listener_type l = ty)
       then onBodyTouch (listener_handler l) ev s
       else ev)
    (bodyListeners (doc s)) event.

(** The body listeners are those of the handlers, in the handlers' order. *)
Definition listeners_exact (s : State) : Prop :=
  bodyListeners (doc s) = flat_map (fun kv => listeners_of kv.2) (handlers (vars s)).

(** On the touch path [firstTargetElement] is unset or a registered target. *)
Definition first_registered (s : State) : Prop :=
  isIosDevice (vars s) = true ->
  forall e, firstTargetElement (vars s) = JsElem e -> e ∈ allTargetElements (vars s).

(** A [touchstart] with exactly one touch delivered to a registered target:
    the one event on which the closure of lines 121-126 writes
    [initialClientY]. *)
Definition records_origin (a : Action) (s : State) : bool :=
  match a with
  | ElementTouchStart e event =>
      bool_decide (e ∈ allTargetElements (vars s))
      && bool_decide (length (targetTouches event) = 1)
  | _ => false
  end.

(** No action of the trace, run from [s], is such a [touchstart]. *)
Fixpoint origin_untouched (acts : list Action) (s : State) : bool :=
  match acts with
  | [] => true
  | a :: rest => negb (records_origin a s) && origin_untouched rest (after (exec a s))
  end.

(** * Basic facts *)

Section MapFacts.

Implicit Types (m : list (Elem * BodyHandler)) (k : Elem) (v : BodyHandler).

Lemma map_set_fresh m k v : k ∉ m.*1 -> map_set k v m = (m ++ [(k, v)])%list.
Proof.
  induction m as [|[k' v'] m IH]; simpl; intros Hk; [done|].
  apply not_elem_of_cons in Hk as [Hne Hk].
  destruct (decide (k' = k)) as [->|_]; [done|]. by rewrite IH.
Qed.

Lemma map_get_app_fresh m k v : k ∉ m.*1 -> map_get k (m ++ [(k, v)])%list = Some v.
Proof.
  induction m as [|[k' v'] m IH]; simpl; intros Hk.
  - by rewrite decide_True.
  - apply not_elem_of_cons in Hk as [Hne Hk].
    rewrite decide_False by done. by apply IH.
Qed.

Lemma map_get_unique m k v : NoDup m.*1 -> (k, v) ∈ m -> map_get k m = Some v.
Proof.
  induction m as [|[k' v'] m IH]; simpl; intros Hnd Hin.
  - by apply elem_of_nil in Hin.
  - apply NoDup_cons in Hnd as [Hk' Hnd].
    apply elem_of_cons in Hin as [[= <- <-]|Hin].
    + by rewrite decide_True.
    + destruct (decide (k' = k)) as [->|_]; [|by apply IH].
      exfalso. apply Hk'. apply list_elem_of_fmap. by exists (k, v).
Qed.

Lemma map_delete_keys m k : (map_delete k m).*1 = filter (fun e => e <> k) m.*1.
Proof.
  unfold map_delete. induction m as [|[k' v'] m IH]; [done|].
  rewrite fmap_cons, !filter_cons. simpl.
  destruct (decide (k' <> k)); simpl; [f_equal|]; exact IH.
Qed.

Lemma map_delete_elem_of m k k' v :
  (k', v) ∈ map_delete k m <-> (k', v) ∈ m /\ k' <> k.
Proof. unfold map_delete. by rewrite list_elem_of_filter; simpl; tauto. Qed.

End MapFacts.

Lemma filter_ne_notin (e : Elem) (l : list Elem) :
  e ∉ l -> filter (fun x => x <> e) l = l.
Proof.
  induction l as [|x l IH]; [done|]. intros Hn.
  apply not_elem_of_cons in Hn as [Hne Hn].
  rewrite filter_cons. destruct (decide (x <> e)); [by rewrite IH|].
  exfalso. by destruct (decide (x = e)); [congruence|].
Qed.

Lemma fold_left_preserves {A B} (P : A -> Prop) (f : A -> B -> A) (l : list B) (a : A) :
  P a -> (forall x b, P x -> P (f x b)) -> P (fold_left f l a).
Proof. revert a. induction l; simpl; auto. Qed.

(** ** What each step leaves alone *)

Section ListenerFrame.

Variables (ty : EventType) (cb : option BodyHandler) (d : Doc).

Lemma remove_bodyOverflow : bodyOverflow (removeEventListener ty cb d) = bodyOverflow d.
Proof. by destruct cb. Qed.
Lemma remove_docElOverflow : docElOverflow (removeEventListener ty cb d) = docElOverflow d.
Proof. by destruct cb. Qed.
Lemma remove_bodyPaddingRight :
  bodyPaddingRight (removeEventListener ty cb d) = bodyPaddingRight d.
Proof. by destruct cb. Qed.
Lemma remove_ontouchstart : ontouchstart (removeEventListener ty cb d) = ontouchstart d.
Proof. by destruct cb. Qed.
Lemma remove_ontouchmove : ontouchmove (removeEventListener ty cb d) = ontouchmove d.
Proof. by destruct cb. Qed.

Lemma add_bodyOverflow : bodyOverflow (addEventListener ty cb d) = bodyOverflow d.
Proof. destruct cb; simpl; [case_bool_decide|]; done. Qed.
Lemma add_docElOverflow : docElOverflow (addEventListener ty cb d) = docElOverflow d.
Proof. destruct cb; simpl; [case_bool_decide|]; done. Qed.
Lemma add_bodyPaddingRight :
  bodyPaddingRight (addEventListener ty cb d) = bodyPaddingRight d.
Proof. destruct cb; simpl; [case_bool_decide|]; done. Qed.
Lemma add_ontouchstart : ontouchstart (addEventListener ty cb d) = ontouchstart d.
Proof. destruct cb; simpl; [case_bool_decide|]; done. Qed.
Lemma add_ontouchmove : ontouchmove (addEventListener ty cb d) = ontouchmove d.
Proof. destruct cb; simpl; [case_bool_decide|]; done. Qed.

End ListenerFrame.

Create Rewrite HintDb frame.
#[local] Hint Rewrite remove_bodyOverflow remove_docElOverflow remove_bodyPaddingRight
  remove_ontouchstart remove_ontouchmove add_bodyOverflow add_docElOverflow
  add_bodyPaddingRight add_ontouchstart add_ontouchmove : frame.

Lemma registerTarget_standard_view e s :
  standard_view (registerTarget e s) = standard_view s.
Proof.
  unfold standard_view, overflow_view, registerTarget. simpl. by autorewrite with frame.
Qed.

Lemma releaseTarget_standard_view t s e :
  standard_view (releaseTarget t s e) = standard_view s.
Proof.
  unfold standard_view, overflow_view, releaseTarget.
  destruct (strict_eq t (JsElem e)); [|done]. simpl.
  destruct (strict_eq t _); simpl; by autorewrite with frame.
Qed.

Lemma disableBodyScroll_touch_standard_view t o s :
  isIosDevice (vars s) = true ->
  standard_view (after (disableBodyScroll t o s)) = standard_view s.
Proof.
  intros Hios. unfold disableBodyScroll. rewrite Hios. cbn [after].
  set (s1 := match t with JsElem e => _ | _ => s end).
  assert (standard_view s1 = standard_view s) as <-.
  { subst s1. destruct t as [| |e]; try done.
    destruct (negb _); [apply registerTarget_standard_view|done]. }
  by destruct (negb _).
Qed.

Lemma clearAllBodyScrollLocks_touch_standard_view s :
  isIosDevice (vars s) = true ->
  standard_view (after (clearAllBodyScrollLocks s)) = standard_view s.
Proof.
  intros Hios. unfold clearAllBodyScrollLocks. rewrite Hios. cbn [after].
  transitivity
    (standard_view
       (fold_left (fun acc e => clearTarget e acc)
          (allTargetElements
             (vars (with_vars (set_handlers [])
                      (fold_left (fun acc kv => removeHandler kv.2 acc) (handlers (vars s)) s))))
          (with_vars (set_handlers [])
             (fold_left (fun acc kv => removeHandler kv.2 acc) (handlers (vars s)) s))));
    [done|].
  apply (fold_left_preserves (fun x => standard_view x = standard_view s)); [|by intros].
  transitivity
    (standard_view (fold_left (fun acc kv => removeHandler kv.2 acc) (handlers (vars s)) s));
    [done|].
  apply (fold_left_preserves (fun x => standard_view x = standard_view s)); [done|by intros].
Qed.

Lemma enableBodyScroll_touch_standard_view t s :
  isIosDevice (vars s) = true ->
  standard_view (after (enableBodyScroll t s)) = standard_view s.
Proof.
  intros Hios. unfold enableBodyScroll. rewrite Hios.
  assert (standard_view (fold_left (releaseTarget t) (allTargetElements (vars s)) s)
          = standard_view s) as Hloop.
  { apply (fold_left_preserves (fun x => standard_view x = standard_view s)); [done|].
    intros x b <-. apply releaseTarget_standard_view. }
  by destruct t.
Qed.

(** The scheduler's callbacks touch the styles and their saved copies only. *)
Lemma run_task_frame t s :
  touch_view (run_task t s) = touch_view s /\
  firstTargetElement (vars (run_task t s)) = firstTargetElement (vars s) /\
  isIosDevice (vars (run_task t s)) = isIosDevice (vars s) /\
  host (run_task t s) = host s /\
  timers (run_task t s) = timers s.
Proof.
  destruct t as [o|]; unfold run_task, hideOverflowCallback, restoreOverflowCallback,
    touch_view.
  - destruct (previousBodyPaddingRight (vars s)) eqn:Hp;
      [|destruct (reserve_requested o && _)]; simpl;
      destruct (previousBodyOverflowSetting (vars s)); done.
  - destruct (previousBodyPaddingRight (vars s)); simpl;
      destruct (previousBodyOverflowSetting (vars s)); simpl; try done;
      destruct (previousDocumentElementOverflowSetting (vars s)); done.
Qed.

Lemma tick_frame s :
  touch_view (tick s) = touch_view s /\
  firstTargetElement (vars (tick s)) = firstTargetElement (vars s) /\
  isIosDevice (vars (tick s)) = isIosDevice (vars s) /\
  host (tick s) = host s.
Proof.
  unfold tick. destruct (timers s) as [|t q]; [done|].
  destruct (run_task_frame t (with_timers (fun _ => q) s)) as (-> & -> & -> & -> & _).
  done.
Qed.

(** On the standard path the three exports write [firstTargetElement] and
    the timer queue only. *)
Lemma exec_standard_frame a s :
  isIosDevice (vars s) = false ->
  match a with Lock _ _ | Unlock _ | UnlockAll => True | _ => False end ->
  touch_view (after (exec a s)) = touch_view s /\
  overflow_view (after (exec a s)) = overflow_view s /\
  host (after (exec a s)) = host s /\
  isIosDevice (vars (after (exec a s))) = isIosDevice (vars s).
Proof.
  intros Hstd Ha. destruct a as [t o|t| | | |]; try done; simpl.
  - unfold disableBodyScroll. rewrite Hstd. simpl. by destruct (truthy _).
  - unfold enableBodyScroll. rewrite Hstd. by destruct (strict_eq _ _).
  - unfold clearAllBodyScrollLocks. by rewrite Hstd.
Qed.

Lemma standard_view_inv a b :
  standard_view a = standard_view b ->
  overflow_view a = overflow_view b /\ timers a = timers b /\
  host a = host b /\ isIosDevice (vars a) = isIosDevice (vars b).
Proof.
  intros H. repeat split.
  - exact (f_equal (fun x => x.1.1.1) H).
  - exact (f_equal (fun x => x.1.1.2) H).
  - exact (f_equal (fun x => x.1.2) H).
  - exact (f_equal (fun x => x.2) H).
Qed.

(** No step changes [isIosDevice]. *)
Lemma exec_isIosDevice a s :
  isIosDevice (vars (after (exec a s))) = isIosDevice (vars s).
Proof.
  destruct (isIosDevice (vars s)) eqn:Hios.
  - destruct a as [t o|t| | |e ev|h]; unfold exec; cbn [after].
    + by destruct (standard_view_inv _ _ (disableBodyScroll_touch_standard_view t o s Hios)) as (_ & _ & _ & ->).
    + by destruct (standard_view_inv _ _ (enableBodyScroll_touch_standard_view t s Hios)) as (_ & _ & _ & ->).
    + by destruct (standard_view_inv _ _ (clearAllBodyScrollLocks_touch_standard_view s Hios)) as (_ & _ & _ & ->).
    + by destruct (tick_frame s) as (_ & _ & -> & _).
    + destruct (ontouchstart (doc s) !! e) as [[]|]; try done.
      unfold onTouchStart. by destruct (targetTouches ev) as [|? []].
    + done.
  - destruct a as [t o|t| | |e ev|h]; unfold exec; cbn [after].
    + destruct (exec_standard_frame (Lock t o) s Hios I) as (_ & _ & _ & H). by rewrite Hios in H.
    + destruct (exec_standard_frame (Unlock t) s Hios I) as (_ & _ & _ & H). by rewrite Hios in H.
    + destruct (exec_standard_frame UnlockAll s Hios I) as (_ & _ & _ & H). by rewrite Hios in H.
    + destruct (tick_frame s) as (_ & _ & H & _). by rewrite Hios in H.
    + destruct (ontouchstart (doc s) !! e) as [[]|]; try done.
      unfold onTouchStart. by destruct (targetTouches ev) as [|? []].
    + done.
Qed.

Lemma run_isIosDevice acts s :
  isIosDevice (vars (run acts s)) = isIosDevice (vars s).
Proof.
  revert s. induction acts as [|a acts IH]; intros s; [done|].
  simpl. change (isIosDevice (vars (run acts (after (exec a s)))) = isIosDevice (vars s)).
  by rewrite IH, exec_isIosDevice.
Qed.

(** Only the scheduler writes the styles and their saved copies. *)
Lemma exec_overflow_view a s :
  a <> Tick -> overflow_view (after (exec a s)) = overflow_view s.
Proof.
  intros Ha. destruct (isIosDevice (vars s)) eqn:Hios;
    destruct a as [t o|t| | |e ev|h]; unfold exec; cbn [after]; try done.
  - by destruct (standard_view_inv _ _ (disableBodyScroll_touch_standard_view t o s Hios)) as (-> & _).
  - by destruct (standard_view_inv _ _ (enableBodyScroll_touch_standard_view t s Hios)) as (-> & _).
  - by destruct (standard_view_inv _ _ (clearAllBodyScrollLocks_touch_standard_view s Hios)) as (-> & _).
  - destruct (ontouchstart (doc s) !! e) as [[]|]; try done.
    unfold onTouchStart. by destruct (targetTouches ev) as [|? []].
  - by destruct (exec_standard_frame (Lock t o) s Hios I) as (_ & ? & _).
  - by destruct (exec_standard_frame (Unlock t) s Hios I) as (_ & ? & _).
  - by destruct (exec_standard_frame UnlockAll s Hios I) as (_ & ? & _).
  - destruct (ontouchstart (doc s) !! e) as [[]|]; try done.
    unfold onTouchStart. by destruct (targetTouches ev) as [|? []].
Qed.

(** ** Invariants of the reachable states *)

Lemma touch_view_inv a b :
  touch_view a = touch_view b ->
  allTargetElements (vars a) = allTargetElements (vars b) /\
  handlers (vars a) = handlers (vars b) /\
  initialClientY (vars a) = initialClientY (vars b) /\
  bodyListeners (doc a) = bodyListeners (doc b) /\
  ontouchstart (doc a) = ontouchstart (doc b) /\
  ontouchmove (doc a) = ontouchmove (doc b) /\
  closures a = closures b.
Proof.
  intros H. repeat split.
  - exact (f_equal (fun x => x.1.1.1.1.1.1) H).
  - exact (f_equal (fun x => x.1.1.1.1.1.2) H).
  - exact (f_equal (fun x => x.1.1.1.1.2) H).
  - exact (f_equal (fun x => x.1.1.1.2) H).
  - exact (f_equal (fun x => x.1.1.2) H).
  - exact (f_equal (fun x => x.1.2) H).
  - exact (f_equal (fun x => x.2) H).
Qed.

Lemma registry_ok_view s s' :
  touch_view s' = touch_view s ->
  isIosDevice (vars s') = isIosDevice (vars s) ->
  registry_ok s -> registry_ok s'.
Proof.
  intros (Ha & Hh & Hy & Hl & Hs & Hm & Hc)%touch_view_inv Hi [].
  constructor; rewrite ?Ha, ?Hh, ?Hy, ?Hl, ?Hs, ?Hm, ?Hc, ?Hi; done.
Qed.

Lemma load_registry_ok h p : registry_ok (load h p).
Proof.
  constructor; simpl; try done.
  - constructor.
  - intros k v Hin. by apply elem_of_nil in Hin.
  - intros l Hin. by apply elem_of_nil in Hin.
  - intros e cb. rewrite lookup_fmap. destruct (page_ontouchstart p !! e); [|done].
    intros [= <-]. left. eauto.
  - intros e cb. rewrite lookup_fmap. destruct (page_ontouchmove p !! e); [|done].
    intros [= <-]. left. eauto.
  - intros e Hin. by apply elem_of_nil in Hin.
Qed.


(** *** Equality of states, field by field *)

Lemma State_ext a b :
  host a = host b -> doc a = doc b -> vars a = vars b ->
  timers a = timers b -> closures a = closures b -> a = b.
Proof. destruct a, b. simpl. by intros -> -> -> -> ->. Qed.

Lemma Doc_ext a b :
  bodyOverflow a = bodyOverflow b -> docElOverflow a = docElOverflow b ->
  bodyPaddingRight a = bodyPaddingRight b -> bodyListeners a = bodyListeners b ->
  ontouchstart a = ontouchstart b -> ontouchmove a = ontouchmove b -> a = b.
Proof. destruct a, b. simpl. by intros -> -> -> -> -> ->. Qed.

Lemma Vars_ext a b :
  isIosDevice a = isIosDevice b -> firstTargetElement a = firstTargetElement b ->
  allTargetElements a = allTargetElements b -> initialClientY a = initialClientY b ->
  previousBodyOverflowSetting a = previousBodyOverflowSetting b ->
  previousDocumentElementOverflowSetting a = previousDocumentElementOverflowSetting b ->
  previousBodyPaddingRight a = previousBodyPaddingRight b ->
  handlers a = handlers b -> a = b.
Proof. destruct a, b. simpl. by intros -> -> -> -> -> -> -> ->. Qed.

Ltac reduce_fields :=
  cbn [host doc vars timers closures bodyOverflow docElOverflow bodyPaddingRight
       bodyListeners ontouchstart ontouchmove isIosDevice firstTargetElement
       allTargetElements initialClientY previousBodyOverflowSetting
       previousDocumentElementOverflowSetting previousBodyPaddingRight handlers
       with_doc with_vars with_timers with_host next_closure
       set_bodyOverflow set_docElOverflow set_bodyPaddingRight set_bodyListeners
       set_ontouchstart set_ontouchmove set_firstTargetElement
       set_allTargetElements set_initialClientY set_previousBodyOverflowSetting
       set_previousDocumentElementOverflowSetting set_previousBodyPaddingRight
       set_handlers setTimeout after].

Ltac state_eq :=
  apply State_ext; [|apply Doc_ext|apply Vars_ext| |]; reduce_fields; try reflexivity.


(** *** Registering a new target *)

Ltac proj :=
  cbn [host doc vars timers closures bodyOverflow docElOverflow bodyPaddingRight
       bodyListeners ontouchstart ontouchmove isIosDevice firstTargetElement
       allTargetElements initialClientY previousBodyOverflowSetting
       previousDocumentElementOverflowSetting previousBodyPaddingRight handlers
       listener_type listener_handler closure_id closure_target after] in *.

Lemma addEventListener_fresh ty h d :
  {| listener_type := ty; listener_handler := h |} ∉ bodyListeners d ->
  bodyListeners (addEventListener ty (Some h) d) =
  (bodyListeners d ++ [{| listener_type := ty; listener_handler := h |}])%list.
Proof. intros Hn. unfold addEventListener. by rewrite bool_decide_eq_false_2. Qed.

Lemma registerTarget_eq e s :
  registry_ok s -> e ∉ allTargetElements (vars s) ->
  let h := {| closure_id := closures s; closure_target := e |} in
  registerTarget e s =
  {| host := host s;
     doc := {| bodyOverflow := bodyOverflow (doc s);
               docElOverflow := docElOverflow (doc s);
               bodyPaddingRight := bodyPaddingRight (doc s);
               bodyListeners :=
                 (bodyListeners (doc s) ++
                    [{| listener_type := touchstart; listener_handler := h |};
                     {| listener_type := touchmove; listener_handler := h |}])%list;
               ontouchstart := <[e := TouchStartCb e]> (ontouchstart (doc s));
               ontouchmove := <[e := TouchMoveCb e]> (ontouchmove (doc s)) |};
     vars := set_handlers (handlers (vars s) ++ [(e, h)])%list
               (set_allTargetElements (allTargetElements (vars s) ++ [e])%list (vars s));
     timers := timers s;
     closures := S (closures s) |}.
Proof.
  intros Hok He h.
  assert (e ∉ (handlers (vars s)).*1) as Hfresh by by rewrite (ok_keys _ Hok).
  assert (forall ty, {| listener_type := ty; listener_handler := h |} ∉ bodyListeners (doc s))
    as Hnew.
  { intros ty Hin. apply (ok_listeners _ Hok) in Hin. proj.
    apply (ok_closures _ Hok) in Hin as [_ Hlt]. simpl in Hlt. lia. }
  unfold registerTarget. cbv zeta. state_eq;
    rewrite ?(map_set_fresh _ _ _ Hfresh), ?(map_get_app_fresh _ _ _ Hfresh);
    autorewrite with frame; try reflexivity.
  fold h. rewrite addEventListener_fresh; rewrite addEventListener_fresh.
  - by rewrite <-app_assoc.
  - apply Hnew.
  - intros Hin. apply elem_of_app in Hin as [Hin|Hin]; [by apply (Hnew touchmove)|].
    apply list_elem_of_singleton in Hin. discriminate.
  - apply Hnew.
Qed.
Lemma registerTarget_registry_ok e s :
  registry_ok s -> isIosDevice (vars s) = true -> e ∉ allTargetElements (vars s) ->
  registry_ok (registerTarget e s).
Proof.
  intros Hok Hios He. rewrite (registerTarget_eq e s Hok He).
  constructor; reduce_fields.
  - apply NoDup_app. split_and!; [apply Hok| |apply NoDup_singleton].
    intros x Hx Hx'. apply list_elem_of_singleton in Hx' as ->. done.
  - by rewrite fmap_app, (ok_keys _ Hok).
  - intros k v Hin. apply elem_of_app in Hin as [Hin|Hin].
    + apply (ok_closures _ Hok) in Hin as [? ?]. split; [done|lia].
    + apply list_elem_of_singleton in Hin as [= -> ->]. simpl. split; [done|lia].
  - intros l Hin. apply elem_of_app. apply elem_of_app in Hin as [Hin|Hin].
    + left. by apply Hok.
    + right. apply list_elem_of_singleton.
      apply elem_of_cons in Hin as [->|Hin]; [done|].
      by apply list_elem_of_singleton in Hin as ->.
  - intros x cb. rewrite lookup_insert. case_decide as Hx.
    + subst x. intros [= <-]. right. split; [done|]. apply elem_of_app. right.
      by apply list_elem_of_singleton.
    + intros Hcb. apply (ok_start _ Hok) in Hcb as [?|[? ?]]; [by left|].
      right. split; [done|]. apply elem_of_app. by left.
  - intros x cb. rewrite lookup_insert. case_decide as Hx.
    + subst x. intros [= <-]. right. split; [done|]. apply elem_of_app. right.
      by apply list_elem_of_singleton.
    + intros Hcb. apply (ok_move _ Hok) in Hcb as [?|[? ?]]; [by left|].
      right. split; [done|]. apply elem_of_app. by left.
  - intros x Hx. rewrite !lookup_insert. case_decide as Hxe; [by subst|].
    apply elem_of_app in Hx as [Hx|Hx]; [by apply Hok|].
    apply list_elem_of_singleton in Hx. congruence.
  - rewrite Hios. discriminate.
Qed.

(** *** Releasing targets *)

Lemma filter_all {A} (P : A -> Prop) `{!forall x, Decision (P x)} (l : list A) :
  (forall x, x ∈ l -> P x) -> filter P l = l.
Proof.
  induction l as [|x l IH]; intros Hall; [done|].
  rewrite filter_cons_True by (apply Hall; left). f_equal. apply IH.
  intros y Hy. apply Hall. by right.
Qed.

Lemma map_delete_notin k (m : list (Elem * BodyHandler)) :
  k ∉ m.*1 -> map_delete k m = m.
Proof.
  intros Hk. apply filter_all. intros [k' v] Hin Heq. simpl in Heq. subst k'.
  apply Hk. apply list_elem_of_fmap. by exists (k, v).
Qed.

Lemma release_loop_absent t l s :
  truthy t = false -> fold_left (releaseTarget t) l s = s.
Proof.
  intros Ht. revert s. induction l as [|x l IH]; intros s; [done|]. simpl.
  unfold releaseTarget at 2. unfold strict_eq.
  rewrite bool_decide_eq_false_2 by (intros ->; discriminate). apply IH.
Qed.

Lemma release_loop_notin e l s :
  e ∉ l -> fold_left (releaseTarget (JsElem e)) l s = s.
Proof.
  revert s. induction l as [|x l IH]; intros s Hn; [done|]. simpl.
  apply not_elem_of_cons in Hn as [Hne Hn].
  unfold releaseTarget at 2. unfold strict_eq.
  rewrite bool_decide_eq_false_2 by congruence. by apply IH.
Qed.

Lemma release_loop_in e l s :
  NoDup l -> e ∈ l ->
  fold_left (releaseTarget (JsElem e)) l s = releaseTarget (JsElem e) s e.
Proof.
  revert s. induction l as [|x l IH]; intros s Hnd Hin.
  - by apply elem_of_nil in Hin.
  - apply NoDup_cons in Hnd as [Hx Hnd]. simpl.
    destruct (decide (x = e)) as [->|Hne].
    + by apply release_loop_notin.
    + apply elem_of_cons in Hin as [?|Hin]; [congruence|].
      unfold releaseTarget at 2. unfold strict_eq.
      rewrite bool_decide_eq_false_2 by congruence. by apply IH.
Qed.

Lemma releaseTarget_hit e h s :
  map_get e (handlers (vars s)) = Some h ->
  releaseTarget (JsElem e) s e =
  with_vars
    (set_firstTargetElement
       (if strict_eq (JsElem e) (firstTargetElement (vars s)) then JsNull
        else firstTargetElement (vars s)))
    (with_vars (fun m => set_handlers (map_delete e (handlers m)) m)
       (with_doc
          (set_bodyListeners
             (filter (fun l => listener_handler l <> h) (bodyListeners (doc s))))
          s)).
Proof.
  intros Hget. unfold releaseTarget.
  replace (strict_eq (JsElem e) (JsElem e)) with true
    by (symmetry; by apply bool_decide_eq_true_2).
  cbv zeta. reduce_fields. rewrite Hget.
  assert (forall d,
    bodyListeners (removeEventListener touchmove (Some h)
                     (removeEventListener touchstart (Some h) d))
    = filter (fun l => listener_handler l <> h) (bodyListeners d)) as Hrm.
  { intros d. unfold removeEventListener. reduce_fields.
    rewrite list_filter_filter. apply list_filter_iff.
    intros [ty h']. simpl. split.
    - intros [H1 H2] ->. by destruct ty.
    - intros Hne. split; congruence. }
  destruct (strict_eq (JsElem e) (firstTargetElement (vars s))); state_eq;
    autorewrite with frame; try reflexivity; apply Hrm.
Qed.

(** A state that differs from a coherent one by the removal of one target
    is coherent. *)
Lemma registry_ok_remove e s s' :
  registry_ok s ->
  isIosDevice (vars s') = isIosDevice (vars s) ->
  initialClientY (vars s') = initialClientY (vars s) ->
  closures s' = closures s ->
  allTargetElements (vars s') = filter (fun x => x <> e) (allTargetElements (vars s)) ->
  handlers (vars s') = map_delete e (handlers (vars s)) ->
  (forall l, l ∈ bodyListeners (doc s') ->
     l ∈ bodyListeners (doc s) /\ closure_target (listener_handler l) <> e) ->
  ontouchstart (doc s') = delete e (ontouchstart (doc s)) ->
  ontouchmove (doc s') = delete e (ontouchmove (doc s)) ->
  registry_ok s'.
Proof.
  intros Hok Hi Hy Hc Ha Hh Hl Hs Hm.
  constructor; rewrite ?Hi, ?Hy, ?Hc, ?Ha, ?Hh, ?Hs, ?Hm.
  - apply NoDup_filter, Hok.
  - by rewrite map_delete_keys, (ok_keys _ Hok).
  - intros k h [Hin _]%map_delete_elem_of. by apply Hok.
  - intros l [Hin Hne]%Hl. apply map_delete_elem_of. split; [by apply Hok|done].
  - intros x cb. rewrite lookup_delete. case_decide; [done|].
    intros [?|[? ?]]%(ok_start _ Hok); [by left|].
    right. split; [done|]. apply list_elem_of_filter. split; [congruence|done].
  - intros x cb. rewrite lookup_delete. case_decide; [done|].
    intros [?|[? ?]]%(ok_move _ Hok); [by left|].
    right. split; [done|]. apply list_elem_of_filter. split; [congruence|done].
  - intros x [Hne Hx]%list_elem_of_filter. rewrite !lookup_delete_ne by congruence.
    by apply Hok.
  - intros Hstd. destruct (ok_standard _ Hok Hstd) as [-> ?]. done.
Qed.

Lemma enableBodyScroll_registry_ok t s :
  registry_ok s -> isIosDevice (vars s) = true ->
  registry_ok (after (enableBodyScroll t s)).
Proof.
  intros Hok Hios. unfold enableBodyScroll. rewrite Hios.
  destruct t as [| |e].
  - by rewrite release_loop_absent.
  - by rewrite release_loop_absent.
  - destruct (decide (e ∈ allTargetElements (vars s))) as [Hin|Hnin].
    + rewrite (release_loop_in _ _ _ (ok_nodup _ Hok) Hin).
      assert (exists h, map_get e (handlers (vars s)) = Some h /\ closure_target h = e)
        as (h & Hget & Hh).
      { rewrite <-(ok_keys _ Hok) in Hin. apply list_elem_of_fmap in Hin as ([k h] & -> & Hin).
        exists h. split; [|by apply (ok_closures _ Hok) in Hin as [? _]].
        apply map_get_unique; [|done]. rewrite (ok_keys _ Hok). apply Hok. }
      rewrite (releaseTarget_hit _ _ _ Hget). cbn [after].
      eapply (registry_ok_remove e s); [exact Hok|reduce_fields; try done..].
      intros l [Hne Hl]%list_elem_of_filter. split; [done|].
      intros Heq. pose proof (ok_listeners _ Hok l Hl) as Hlh.
      rewrite Heq in Hlh.
      apply (map_get_unique _ _ _ ltac:(rewrite (ok_keys _ Hok); apply Hok)) in Hlh.
      congruence.
    + rewrite (release_loop_notin _ _ _ Hnin). cbn [after].
      eapply (registry_ok_remove e s); [exact Hok|reduce_fields; try done..].
      * rewrite map_delete_notin; [done|]. by rewrite (ok_keys _ Hok).
      * intros l Hl. split; [done|]. intros Heq.
        apply (ok_listeners _ Hok) in Hl. rewrite Heq in Hl.
        apply Hnin. rewrite <-(ok_keys _ Hok). apply list_elem_of_fmap.
        by exists (e, listener_handler l).
Qed.

(** *** Releasing every target *)

Lemma removeHandler_listeners h s :
  removeHandler h s =
  with_doc (set_bodyListeners
              (filter (fun l => listener_handler l <> h) (bodyListeners (doc s)))) s.
Proof.
  unfold removeHandler, removeEventListener. state_eq.
  rewrite list_filter_filter. apply list_filter_iff.
  intros [ty h']. simpl. split.
  - intros [H1 H2] ->. by destruct ty.
  - intros Hne. split; congruence.
Qed.

Lemma remove_loop_eq (hs : list (Elem * BodyHandler)) s :
  fold_left (fun acc kv => removeHandler kv.2 acc) hs s =
  with_doc (set_bodyListeners
              (filter (fun l => listener_handler l ∉ hs.*2) (bodyListeners (doc s)))) s.
Proof.
  revert s. induction hs as [|[k h] hs IH]; intros s.
  - simpl. state_eq. rewrite filter_all; [done|]. intros ? _. apply not_elem_of_nil.
  - simpl. rewrite IH, removeHandler_listeners. state_eq.
    rewrite list_filter_filter. apply list_filter_iff.
    intros l. simpl. rewrite not_elem_of_cons. tauto.
Qed.

Lemma lookup_delete_all l m x :
  delete_all l m !! x = if bool_decide (x ∈ l) then None else m !! x.
Proof.
  unfold delete_all. revert m. induction l as [|e l IH]; intros m; [done|].
  simpl. rewrite IH. destruct (decide (x = e)) as [->|Hne].
  - rewrite lookup_delete_eq. rewrite (bool_decide_eq_true_2 (e ∈ e :: l)) by left.
    by destruct (bool_decide _).
  - rewrite lookup_delete_ne by done.
    rewrite (bool_decide_ext (x ∈ e :: l) (x ∈ l)); [done|].
    rewrite elem_of_cons. intuition congruence.
Qed.

Lemma clear_loop_eq l s :
  fold_left (fun acc e => clearTarget e acc) l s =
  with_vars (set_allTargetElements
               match l with [] => allTargetElements (vars s) | _ => [] end)
    (with_doc (fun d => set_ontouchmove (delete_all l (ontouchmove d)) d)
       (with_doc (fun d => set_ontouchstart (delete_all l (ontouchstart d)) d) s)).
Proof.
  revert s. induction l as [|e l IH]; intros s.
  - simpl. state_eq.
  - simpl. rewrite IH. unfold clearTarget. state_eq. by destruct l.
Qed.

Lemma clearAllBodyScrollLocks_touch s :
  isIosDevice (vars s) = true ->
  clearAllBodyScrollLocks s =
  Returns
    {| host := host s;
       doc := {| bodyOverflow := bodyOverflow (doc s);
                 docElOverflow := docElOverflow (doc s);
                 bodyPaddingRight := bodyPaddingRight (doc s);
                 bodyListeners :=
                   filter (fun l => listener_handler l ∉ (handlers (vars s)).*2)
                     (bodyListeners (doc s));
                 ontouchstart :=
                   delete_all (allTargetElements (vars s)) (ontouchstart (doc s));
                 ontouchmove :=
                   delete_all (allTargetElements (vars s)) (ontouchmove (doc s)) |};
       vars := {| isIosDevice := true;
                  firstTargetElement := JsNull;
                  allTargetElements := [];
                  initialClientY := (-1)%float;
                  previousBodyOverflowSetting := previousBodyOverflowSetting (vars s);
                  previousDocumentElementOverflowSetting :=
                    previousDocumentElementOverflowSetting (vars s);
                  previousBodyPaddingRight := previousBodyPaddingRight (vars s);
                  handlers := [] |};
       timers := timers s;
       closures := closures s |}.
Proof.
  intros Hios. unfold clearAllBodyScrollLocks. rewrite Hios.
  rewrite remove_loop_eq, clear_loop_eq. f_equal. state_eq.
  all: by destruct (allTargetElements (vars s)).
Qed.

Lemma clearAllBodyScrollLocks_registry_ok s :
  registry_ok s -> registry_ok (after (clearAllBodyScrollLocks s)).
Proof.
  intros Hok. destruct (isIosDevice (vars s)) eqn:Hios.
  - rewrite (clearAllBodyScrollLocks_touch s Hios). constructor; proj; try done.
    + constructor.
    + intros k h Hin. by apply elem_of_nil in Hin.
    + intros l [Hn Hin]%list_elem_of_filter. exfalso. apply Hn.
      apply (ok_listeners _ Hok) in Hin. apply list_elem_of_fmap.
      by eexists (_, _).
    + intros e cb. rewrite lookup_delete_all. case_bool_decide as He; [done|].
      intros [?|[? ?]]%(ok_start _ Hok); [by left|done].
    + intros e cb. rewrite lookup_delete_all. case_bool_decide as He; [done|].
      intros [?|[? ?]]%(ok_move _ Hok); [by left|done].
    + intros e Hin. by apply elem_of_nil in Hin.
  - destruct (exec_standard_frame UnlockAll s Hios I) as (Hv & _ & _ & Hi).
    by apply (registry_ok_view s).
Qed.

Lemma disableBodyScroll_registry_ok t o s :
  registry_ok s -> registry_ok (after (disableBodyScroll t o s)).
Proof.
  intros Hok. destruct (isIosDevice (vars s)) eqn:Hios.
  - unfold disableBodyScroll. rewrite Hios. cbn [after].
    set (s1 := match t with JsElem e => _ | _ => s end).
    assert (registry_ok s1) as Hok1.
    { subst s1. destruct t as [| |e]; try done. case_bool_decide as He; [done|].
      by apply registerTarget_registry_ok. }
    destruct (negb _); [|done]. by apply (registry_ok_view s1).
  - destruct (exec_standard_frame (Lock t o) s Hios I) as (Hv & _ & _ & Hi).
    by apply (registry_ok_view s).
Qed.

Lemma exec_registry_ok a s : registry_ok s -> registry_ok (after (exec a s)).
Proof.
  intros Hok. destruct a as [t o|t| | |e ev|h]; unfold exec; cbn [after].
  - by apply disableBodyScroll_registry_ok.
  - destruct (isIosDevice (vars s)) eqn:Hios.
    + by apply enableBodyScroll_registry_ok.
    + destruct (exec_standard_frame (Unlock t) s Hios I) as (Hv & _ & _ & Hi).
      by apply (registry_ok_view s).
  - by apply clearAllBodyScrollLocks_registry_ok.
  - destruct (tick_frame s) as (Hv & _ & Hi & _). by apply (registry_ok_view s).
  - destruct (ontouchstart (doc s) !! e) as [[n|x|x]|] eqn:Hcb; try done.
    unfold onTouchStart. destruct (targetTouches ev) as [|touch0 [|]]; try done.
    destruct Hok as [? ? ? ? Hstart ? ? Hstd]. constructor; try done.
    intros Hi. exfalso. destruct (Hstd Hi) as [Hnil _].
    apply Hstart in Hcb as [[? [=]]|[_ Hin]]. rewrite Hnil in Hin.
    by apply elem_of_nil in Hin.
  - by apply (registry_ok_view s).
Qed.

Lemma run_registry_ok acts s : registry_ok s -> registry_ok (run acts s).
Proof.
  revert s. induction acts as [|a acts IH]; intros s Hok; [done|].
  apply IH. by apply exec_registry_ok.
Qed.

(** *** The saved styles *)

Lemma overflow_view_inv a b :
  overflow_view a = overflow_view b ->
  bodyOverflow (doc a) = bodyOverflow (doc b) /\
  docElOverflow (doc a) = docElOverflow (doc b) /\
  bodyPaddingRight (doc a) = bodyPaddingRight (doc b) /\
  previousBodyOverflowSetting (vars a) = previousBodyOverflowSetting (vars b) /\
  previousDocumentElementOverflowSetting (vars a)
    = previousDocumentElementOverflowSetting (vars b) /\
  previousBodyPaddingRight (vars a) = previousBodyPaddingRight (vars b).
Proof.
  intros H. repeat split.
  - exact (f_equal (fun x => x.1.1.1.1.1) H).
  - exact (f_equal (fun x => x.1.1.1.1.2) H).
  - exact (f_equal (fun x => x.1.1.1.2) H).
  - exact (f_equal (fun x => x.1.1.2) H).
  - exact (f_equal (fun x => x.1.2) H).
  - exact (f_equal (fun x => x.2) H).
Qed.

Lemma styles_ok_view p s s' :
  overflow_view s' = overflow_view s -> styles_ok p s -> styles_ok p s'.
Proof.
  intros (H1 & H2 & H3 & H4 & H5 & H6)%overflow_view_inv.
  unfold styles_ok. by rewrite H1, H2, H3, H4, H5, H6.
Qed.

(** What the two callbacks do to the styles and their saved copies. *)
Section Callbacks.

Variables (options : option BodyScrollOptions) (s : State).

Let hidden := hideOverflowCallback options s.
Let restored := restoreOverflowCallback s.

Lemma hide_overflow_free :
  previousBodyOverflowSetting (vars s) = None ->
  previousBodyOverflowSetting (vars hidden) = Some (bodyOverflow (doc s)) /\
  previousDocumentElementOverflowSetting (vars hidden) = Some (docElOverflow (doc s)) /\
  bodyOverflow (doc hidden) = "hidden" /\ docElOverflow (doc hidden) = "hidden".
Proof.
  intros Hov. subst hidden. unfold hideOverflowCallback.
  destruct (previousBodyPaddingRight (vars s));
    [|destruct (reserve_requested options && _)]; reduce_fields; by rewrite Hov.
Qed.

Lemma hide_overflow_held v :
  previousBodyOverflowSetting (vars s) = Some v ->
  previousBodyOverflowSetting (vars hidden) = Some v /\
  previousDocumentElementOverflowSetting (vars hidden)
    = previousDocumentElementOverflowSetting (vars s) /\
  bodyOverflow (doc hidden) = bodyOverflow (doc s) /\
  docElOverflow (doc hidden) = docElOverflow (doc s).
Proof.
  intros Hov. subst hidden. unfold hideOverflowCallback.
  destruct (previousBodyPaddingRight (vars s));
    [|destruct (reserve_requested options && _)]; reduce_fields; by rewrite Hov.
Qed.

Lemma hide_padding_added :
  previousBodyPaddingRight (vars s) = None ->
  reserve_requested options = true ->
  (0 < scrollBarGap (host s))%Z ->
  previousBodyPaddingRight (vars hidden) = Some (bodyPaddingRight (doc s)) /\
  bodyPaddingRight (doc hidden) = pretty (scrollBarGap (host s)) +:+ "px".
Proof.
  intros Hpad Hres Hgap. subst hidden. unfold hideOverflowCallback.
  rewrite Hpad, Hres, bool_decide_eq_true_2 by done. cbn [andb]. reduce_fields.
  by destruct (previousBodyOverflowSetting (vars s)).
Qed.

Lemma hide_padding_kept :
  previousBodyPaddingRight (vars s) <> None \/
  reserve_requested options = false \/
  (scrollBarGap (host s) <= 0)%Z ->
  previousBodyPaddingRight (vars hidden) = previousBodyPaddingRight (vars s) /\
  bodyPaddingRight (doc hidden) = bodyPaddingRight (doc s).
Proof.
  intros Hkeep. subst hidden. unfold hideOverflowCallback.
  destruct (previousBodyPaddingRight (vars s)) eqn:Hpad.
  - reduce_fields. by destruct (previousBodyOverflowSetting (vars s)).
  - replace (reserve_requested options && bool_decide (0 < scrollBarGap (host s))%Z)
      with false.
    + reduce_fields. by destruct (previousBodyOverflowSetting (vars s)).
    + destruct Hkeep as [?|[->|?]]; [done|done|].
      rewrite bool_decide_eq_false_2 by lia. by destruct (reserve_requested _).
Qed.

Lemma restore_overflow_held v w :
  previousBodyOverflowSetting (vars s) = Some v ->
  previousDocumentElementOverflowSetting (vars s) = Some w ->
  previousBodyOverflowSetting (vars restored) = None /\
  previousDocumentElementOverflowSetting (vars restored) = None /\
  bodyOverflow (doc restored) = v /\ docElOverflow (doc restored) = w.
Proof.
  intros Hov Hdoc. subst restored. unfold restoreOverflowCallback.
  destruct (previousBodyPaddingRight (vars s)); reduce_fields;
    rewrite Hov; reduce_fields; by rewrite Hdoc.
Qed.

Lemma restore_overflow_free :
  previousBodyOverflowSetting (vars s) = None ->
  previousBodyOverflowSetting (vars restored) = None /\
  previousDocumentElementOverflowSetting (vars restored)
    = previousDocumentElementOverflowSetting (vars s) /\
  bodyOverflow (doc restored) = bodyOverflow (doc s) /\
  docElOverflow (doc restored) = docElOverflow (doc s).
Proof.
  intros Hov. subst restored. unfold restoreOverflowCallback.
  destruct (previousBodyPaddingRight (vars s)); reduce_fields; by rewrite Hov.
Qed.

Lemma restore_padding_held v :
  previousBodyPaddingRight (vars s) = Some v ->
  previousBodyPaddingRight (vars restored) = None /\
  bodyPaddingRight (doc restored) = v.
Proof.
  intros Hpad. subst restored. unfold restoreOverflowCallback. rewrite Hpad.
  reduce_fields. destruct (previousBodyOverflowSetting (vars s)); reduce_fields;
    [|done]. by destruct (previousDocumentElementOverflowSetting (vars s)).
Qed.

Lemma restore_padding_free :
  previousBodyPaddingRight (vars s) = None ->
  previousBodyPaddingRight (vars restored) = None /\
  bodyPaddingRight (doc restored) = bodyPaddingRight (doc s).
Proof.
  intros Hpad. subst restored. unfold restoreOverflowCallback. rewrite Hpad.
  destruct (previousBodyOverflowSetting (vars s)); reduce_fields; [|done].
  by destruct (previousDocumentElementOverflowSetting (vars s)).
Qed.

End Callbacks.

Lemma run_task_styles_ok p t s : styles_ok p s -> styles_ok p (run_task t s).
Proof.
  unfold styles_ok. intros [Ho Hp]. destruct t as [o|]; cbn [run_task]; split.
  - destruct (previousBodyOverflowSetting (vars s)) as [v|] eqn:Hov.
    + destruct (hide_overflow_held o s v Hov) as (-> & -> & -> & ->). done.
    + destruct (hide_overflow_free o s Hov) as (-> & -> & -> & ->).
      destruct Ho as (_ & -> & ->). done.
  - destruct (previousBodyPaddingRight (vars s)) as [v|] eqn:Hpad.
    + destruct (hide_padding_kept o s) as (-> & _); [left; congruence|].
      by rewrite Hpad.
    + destruct (reserve_requested o) eqn:Hres;
        [destruct (decide (0 < scrollBarGap (host s))%Z) as [Hgap|Hgap]|].
      * destruct (hide_padding_added o s Hpad Hres Hgap) as (-> & _). done.
      * destruct (hide_padding_kept o s) as (-> & ->); [right; right; lia|].
        by rewrite Hpad.
      * destruct (hide_padding_kept o s) as (-> & ->); [right; by left|].
        by rewrite Hpad.
  - destruct (previousBodyOverflowSetting (vars s)) as [v|] eqn:Hov.
    + destruct Ho as (-> & Hdoc & _).
      destruct (restore_overflow_held s _ _ Hov Hdoc) as (-> & -> & -> & ->). done.
    + destruct (restore_overflow_free s Hov) as (-> & -> & -> & ->). done.
  - destruct (previousBodyPaddingRight (vars s)) as [v|] eqn:Hpad.
    + destruct (restore_padding_held s v Hpad) as (-> & ->). done.
    + destruct (restore_padding_free s Hpad) as (-> & ->). done.
Qed.

Lemma tick_styles_ok p s : styles_ok p s -> styles_ok p (tick s).
Proof.
  intros Hok. unfold tick. destruct (timers s) as [|t q]; [done|].
  by apply run_task_styles_ok.
Qed.

Lemma exec_styles_ok p a s : styles_ok p s -> styles_ok p (after (exec a s)).
Proof.
  intros Hok.
  assert (a = Tick \/ a <> Tick) as [->|Ha] by (destruct a; auto; by right).
  - by apply tick_styles_ok.
  - apply (styles_ok_view p s); [by apply exec_overflow_view|done].
Qed.

Lemma run_styles_ok p acts s : styles_ok p s -> styles_ok p (run acts s).
Proof.
  revert s. induction acts as [|a acts IH]; intros s Hok; [done|].
  apply IH. by apply exec_styles_ok.
Qed.

Lemma load_styles_ok h p : styles_ok p (load h p).
Proof. by unfold styles_ok. Qed.

Lemma exec_touch_idle a s : touch_idle s -> touch_idle (after (exec a s)).
Proof.
  unfold touch_idle. intros Hidle. rewrite exec_isIosDevice. intros Hios.
  destruct (Hidle Hios) as (Ht & H1 & H2 & H3).
  destruct a as [t o|t| | |e ev|h]; unfold exec; cbn [after].
  - destruct (standard_view_inv _ _ (disableBodyScroll_touch_standard_view t o s Hios))
      as ((_ & _ & _ & -> & -> & ->)%overflow_view_inv & -> & _). done.
  - destruct (standard_view_inv _ _ (enableBodyScroll_touch_standard_view t s Hios))
      as ((_ & _ & _ & -> & -> & ->)%overflow_view_inv & -> & _). done.
  - destruct (standard_view_inv _ _ (clearAllBodyScrollLocks_touch_standard_view s Hios))
      as ((_ & _ & _ & -> & -> & ->)%overflow_view_inv & -> & _). done.
  - unfold tick. by rewrite Ht.
  - destruct (ontouchstart (doc s) !! e) as [[]|]; try done.
    unfold onTouchStart. by destruct (targetTouches ev) as [|? []].
  - done.
Qed.

Lemma run_touch_idle acts s : touch_idle s -> touch_idle (run acts s).
Proof.
  revert s. induction acts as [|a acts IH]; intros s Hok; [done|].
  apply IH. by apply exec_touch_idle.
Qed.

Lemma load_touch_idle h p : touch_idle (load h p).
Proof. by unfold touch_idle. Qed.

(** ** The standard path without the scheduler *)

Lemma run_task_set_first t f s :
  run_task t (with_vars (set_firstTargetElement f) s) =
  with_vars (set_firstTargetElement f) (run_task t s).
Proof.
  destruct t as [o|]; cbn [run_task];
    unfold hideOverflowCallback, restoreOverflowCallback; reduce_fields.
  - destruct (previousBodyPaddingRight (vars s));
      [|destruct (reserve_requested o && _)]; reduce_fields;
      destruct (previousBodyOverflowSetting (vars s)); state_eq.
  - destruct (previousBodyPaddingRight (vars s)); reduce_fields;
      destruct (previousBodyOverflowSetting (vars s)); reduce_fields;
      try destruct (previousDocumentElementOverflowSetting (vars s)); state_eq.
Qed.

Lemma fold_run_task_set_first q f s :
  fold_left (fun acc t => run_task t acc) q (with_vars (set_firstTargetElement f) s) =
  with_vars (set_firstTargetElement f) (fold_left (fun acc t => run_task t acc) q s).
Proof.
  revert s. induction q as [|t q IH]; intros s; [done|].
  simpl. by rewrite run_task_set_first, IH.
Qed.

Lemma fold_run_task_frame q s :
  let s' := fold_left (fun acc t => run_task t acc) q s in
  touch_view s' = touch_view s /\
  firstTargetElement (vars s') = firstTargetElement (vars s) /\
  isIosDevice (vars s') = isIosDevice (vars s) /\
  host s' = host s /\ timers s' = timers s.
Proof.
  revert s. induction q as [|t q IH]; intros s; [done|]. simpl.
  destruct (IH (run_task t s)) as (-> & -> & -> & -> & ->). apply run_task_frame.
Qed.

Lemma settle_frame s :
  touch_view (settle s) = touch_view s /\
  firstTargetElement (vars (settle s)) = firstTargetElement (vars s) /\
  isIosDevice (vars (settle s)) = isIosDevice (vars s) /\
  host (settle s) = host s /\ timers (settle s) = [].
Proof.
  unfold settle.
  destruct (fold_run_task_frame (timers s) (with_timers (fun _ => []) s))
    as (-> & -> & -> & -> & ->). done.
Qed.

Lemma settle_setTimeout t s : settle (setTimeout t s) = run_task t (settle s).
Proof.
  unfold settle. cbn [setTimeout with_timers timers]. by rewrite fold_left_app.
Qed.

Lemma settle_set_first f s :
  settle (with_vars (set_firstTargetElement f) s) =
  with_vars (set_firstTargetElement f) (settle s).
Proof. unfold settle. cbn [with_vars timers]. by rewrite <-fold_run_task_set_first. Qed.

Lemma settle_tick s : settle (tick s) = settle s.
Proof.
  unfold tick, settle. destruct (timers s) as [|t q] eqn:Hq; [by rewrite Hq|].
  destruct (run_task_frame t (with_timers (fun _ => q) s)) as (_ & _ & _ & _ & ->).
  cbn [with_timers timers fold_left]. f_equal.
  destruct t as [o|]; cbn [run_task];
    unfold hideOverflowCallback, restoreOverflowCallback; reduce_fields.
  - destruct (previousBodyPaddingRight (vars s));
      [|destruct (reserve_requested o && _)]; reduce_fields;
      destruct (previousBodyOverflowSetting (vars s)); state_eq.
  - destruct (previousBodyPaddingRight (vars s)); reduce_fields;
      destruct (previousBodyOverflowSetting (vars s)); reduce_fields;
      try destruct (previousDocumentElementOverflowSetting (vars s)); state_eq.
Qed.

Lemma settle_ticks k s : settle (ticks k s) = settle s.
Proof. induction k as [|k IH]; [done|]. cbn [ticks]. by rewrite settle_tick. Qed.

Lemma ticks_isIosDevice k s : isIosDevice (vars (ticks k s)) = isIosDevice (vars s).
Proof.
  induction k as [|k IH]; [done|]. cbn [ticks].
  by destruct (tick_frame (ticks k s)) as (_ & _ & -> & _).
Qed.

Lemma ticks_idle k s : timers s = [] -> ticks k s = s.
Proof.
  intros Ht. induction k as [|k IH]; [done|]. cbn [ticks].
  rewrite IH. unfold tick. by rewrite Ht.
Qed.

(** On the standard path, running the pending callbacks after a call gives
    what the call with an immediate callback gives on the settled state. *)
Lemma settle_exec_standard a s :
  isIosDevice (vars s) = false -> is_call a = true ->
  settle (after (exec a s)) = settled_exec a (settle s).
Proof.
  intros Hstd Ha. destruct (settle_frame s) as (_ & Hf & _).
  destruct a as [t o|t| | | |]; try done; unfold exec, settled_exec.
  - unfold disableBodyScroll, setOverflowHidden. rewrite Hstd. cbn [after].
    destruct (run_task_frame (HideOverflow o) (settle s)) as (_ & Hf' & _).
    cbn [run_task] in Hf'. cbv zeta. rewrite Hf', Hf.
    change (firstTargetElement (vars (setTimeout (HideOverflow o) s)))
      with (firstTargetElement (vars s)).
    destruct (negb (truthy (firstTargetElement (vars s)))).
    + rewrite settle_set_first. f_equal. apply (settle_setTimeout (HideOverflow o)).
    + apply (settle_setTimeout (HideOverflow o)).
  - unfold enableBodyScroll, restoreOverflowSetting. rewrite Hstd, Hf.
    destruct (strict_eq _ _); cbn [after]; [|done].
    rewrite settle_set_first. f_equal. apply (settle_setTimeout RestoreOverflow).
  - unfold clearAllBodyScrollLocks, restoreOverflowSetting. rewrite Hstd. cbn [after].
    rewrite settle_set_first. f_equal. apply (settle_setTimeout RestoreOverflow).
Qed.

(** A trace of calls and scheduler turns, settled, is the trace of its
    calls with immediate callbacks. *)
Lemma settle_run_standard acts s :
  isIosDevice (vars s) = false ->
  Forall (fun a => is_call a = true \/ a = Tick) acts ->
  settle (run acts s) = settled_run (calls acts) (settle s).
Proof.
  intros Hstd Hacts. revert s Hstd.
  induction Hacts as [|a acts Ha _ IH]; intros s Hstd; [done|].
  change (run (a :: acts) s) with (run acts (after (exec a s))).
  rewrite IH by by rewrite exec_isIosDevice.
  destruct Ha as [Ha| ->].
  - rewrite (settle_exec_standard _ _ Hstd Ha).
    unfold calls. simpl. by destruct a.
  - cbn [exec after]. by rewrite settle_tick.
Qed.

Lemma calls_only acts cs :
  calls acts = cs -> Forall (fun a => is_call a = true) cs ->
  Forall (fun a => is_call a = true \/ a = Tick) acts.
Proof.
  intros <- Hcs. unfold calls in Hcs. rewrite Forall_forall in Hcs.
  apply Forall_forall. intros a Ha.
  destruct (is_tick a) eqn:Ht; [right; by destruct a|left].
  apply Hcs. apply list_elem_of_In, filter_In. split; [by apply list_elem_of_In|].
  by rewrite Ht.
Qed.

Lemma calls_app a b : calls (a ++ b) = (calls a ++ calls b)%list.
Proof. apply List.filter_app. Qed.

(** ** Facts about the platform test *)

Lemma append_cons c a b : String c a +:+ b = String c (a +:+ b).
Proof. reflexivity. Qed.

Lemma append_assoc a b c : (a +:+ b) +:+ c = a +:+ b +:+ c.
Proof. induction a as [|x a IH]; [done|]. by rewrite !append_cons, IH. Qed.

Lemma prefix_spec lit s :
  String.prefix lit s = true <-> exists rest, s = lit +:+ rest.
Proof.
  revert s. induction lit as [|c lit IH]; intros s.
  - split; [intros _; by exists s|by destruct s].
  - destruct s as [|c' s]; simpl.
    + split; [done|]. by intros [rest [=]].
    + destruct (Ascii.ascii_dec c c') as [->|Hne].
      * rewrite IH. split; intros [rest Hr]; exists rest.
        -- by rewrite append_cons, Hr.
        -- rewrite append_cons in Hr. by injection Hr.
      * split; [done|]. intros [rest Hr]. rewrite append_cons in Hr.
        injection Hr as ? ?. done.
Qed.

Lemma occurs_spec lit s :
  Platform.occurs lit s = true <-> exists before rest, s = before +:+ lit +:+ rest.
Proof.
  induction s as [|c s IH]; cbn [Platform.occurs].
  - rewrite orb_false_r, prefix_spec. split.
    + intros [rest Hr]. by exists "", rest.
    + intros (before & rest & Hr). destruct before; [by exists rest|done].
  - rewrite orb_true_iff, prefix_spec, IH. split.
    + intros [[rest Hr]|(before & rest & Hr)].
      * by exists "", rest.
      * exists (String c before), rest. by rewrite append_cons, Hr.
    + intros (before & rest & Hr). destruct before as [|c' before].
      * left. by exists rest.
      * right. rewrite append_cons in Hr. injection Hr as -> Hr. by exists before, rest.
Qed.

(** A string that contains a longer alternative contains the device name
    that starts it, so the six alternatives match what the first three do. *)
Lemma test_spec p :
  Platform.test p = true <->
  Platform.occurs "iPad" p = true \/ Platform.occurs "iPhone" p = true \/
  Platform.occurs "iPod" p = true.
Proof.
  unfold Platform.test, Platform.alternatives. cbn [existsb].
  rewrite orb_false_r, !orb_true_iff.
  assert (forall dev tail, Platform.occurs (dev +:+ tail) p = true ->
                           Platform.occurs dev p = true) as Hsub.
  { intros dev tail. rewrite !occurs_spec. intros (before & rest & ->).
    exists before, (tail +:+ rest). by rewrite append_assoc. }
  split; [|tauto].
  intros [?|[?|[?|[H|[H|H]]]]]; auto.
  - left. by apply (Hsub "iPad" " Simulator").
  - right; left. by apply (Hsub "iPhone" " Simulator").
  - right; right. by apply (Hsub "iPod" " Simulator").
Qed.

Lemma detect_spec r :
  Platform.detect r = true <->
  exists p, r = Platform.Navigator (Some p) /\ Platform.test p = true.
Proof.
  destruct r as [| |[p|]]; simpl; try (split; [done|by intros (? & [=] & _)]).
  split.
  - intros [_ Ht]%andb_true_iff. by exists p.
  - intros (p' & [= <-] & Ht). rewrite Ht, andb_true_r.
    destruct p; [done|done].
Qed.

(** ** The body-level closure *)

(** The body-level closure of a target prevents the default action of
    exactly the events whose target is outside its [targetElement]. *)
Lemma onBodyTouch_spec h event s :
  defaultPrevented (onBodyTouch h event s) =
  negb (contains (host s) (closure_target h) (target event)) || defaultPrevented event.
Proof. unfold onBodyTouch. by destruct (contains _ _ _). Qed.

(** ** Facts about the settled standard path *)

Lemma settle_styles_ok p s : styles_ok p s -> styles_ok p (settle s).
Proof.
  intros Hok. unfold settle.
  apply (fold_left_preserves (styles_ok p)); [done|].
  intros x t Hx. by apply run_task_styles_ok.
Qed.

Lemma reachable_settled_styles_ok h p acts :
  styles_ok p (settle (run acts (load h p))).
Proof. apply settle_styles_ok, run_styles_ok, load_styles_ok. Qed.

Lemma settle_load h p : settle (load h p) = load h p.
Proof. reflexivity. Qed.

(** After the hiding callback a capture is held. *)
Lemma hide_captures o s :
  is_Some (previousBodyOverflowSetting (vars (hideOverflowCallback o s))).
Proof.
  destruct (previousBodyOverflowSetting (vars s)) as [v|] eqn:Hov.
  - destruct (hide_overflow_held o s v Hov) as (-> & _). eauto.
  - destruct (hide_overflow_free o s Hov) as (-> & _). eauto.
Qed.

(** After the restoring callback nothing is held. *)
Lemma restore_clears s :
  previousBodyOverflowSetting (vars (restoreOverflowCallback s)) = None /\
  previousBodyPaddingRight (vars (restoreOverflowCallback s)) = None.
Proof.
  split.
  - unfold restoreOverflowCallback.
    destruct (previousBodyPaddingRight (vars s)); reduce_fields;
      by destruct (previousBodyOverflowSetting (vars s)) eqn:Hov.
  - destruct (previousBodyPaddingRight (vars s)) as [v|] eqn:Hpad.
    + by destruct (restore_padding_held s v Hpad).
    + by destruct (restore_padding_free s Hpad).
Qed.

Lemma hide_first o s :
  firstTargetElement (vars (hideOverflowCallback o s)) = firstTargetElement (vars s).
Proof. by destruct (run_task_frame (HideOverflow o) s) as (_ & ? & _). Qed.

(** With a capture held both overflow styles are "hidden"; with nothing
    held all three styles are the page's. *)
Lemma styles_ok_held p s :
  styles_ok p s -> is_Some (previousBodyOverflowSetting (vars s)) ->
  bodyOverflow (doc s) = "hidden" /\ docElOverflow (doc s) = "hidden".
Proof.
  intros [Hov _] [v Hv]. rewrite Hv in Hov. by destruct Hov as (_ & _ & ? & ?).
Qed.

Lemma styles_ok_free p s :
  styles_ok p s ->
  previousBodyOverflowSetting (vars s) = None ->
  previousBodyPaddingRight (vars s) = None ->
  bodyOverflow (doc s) = page_bodyOverflow p /\
  docElOverflow (doc s) = page_docElOverflow p /\
  bodyPaddingRight (doc s) = page_bodyPaddingRight p.
Proof.
  intros [Hov Hpad] Ho Hp. rewrite Ho in Hov. rewrite Hp in Hpad.
  by destruct Hov as (_ & ? & ?).
Qed.

(** ** Locking twice *)

Lemma hide_idempotent o s :
  hideOverflowCallback o (hideOverflowCallback o s) = hideOverflowCallback o s.
Proof.
  unfold hideOverflowCallback.
  destruct (previousBodyPaddingRight (vars s)) eqn:Hpad;
    [|destruct (reserve_requested o && bool_decide (0 < scrollBarGap (host s))%Z) eqn:Hc];
    destruct (previousBodyOverflowSetting (vars s)) eqn:Hov;
    reduce_fields; rewrite ?Hpad, ?Hov; reduce_fields; rewrite ?Hc, ?Hpad, ?Hov;
    reduce_fields; rewrite ?Hpad, ?Hov; done.
Qed.

Lemma hide_set_first o f s :
  hideOverflowCallback o (with_vars (set_firstTargetElement f) s) =
  with_vars (set_firstTargetElement f) (hideOverflowCallback o s).
Proof. exact (run_task_set_first (HideOverflow o) f s). Qed.

Lemma registerTarget_allTargetElements e s :
  allTargetElements (vars (registerTarget e s)) = (allTargetElements (vars s) ++ [e])%list.
Proof. unfold registerTarget. by reduce_fields. Qed.

Lemma set_first_twice f s :
  with_vars (set_firstTargetElement f) (with_vars (set_firstTargetElement f) s) =
  with_vars (set_firstTargetElement f) s.
Proof. state_eq. Qed.

(** On the touch path a second identical lock changes nothing at all. *)
Lemma touch_lock_idempotent t o s :
  isIosDevice (vars s) = true ->
  after (disableBodyScroll t o (after (disableBodyScroll t o s))) =
  after (disableBodyScroll t o s).
Proof.
  intros Hios.
  assert (forall f x, isIosDevice (vars (with_vars (set_firstTargetElement f) x))
                      = isIosDevice (vars x)) as Hi by done.
  assert (isIosDevice (vars (after (disableBodyScroll t o s))) = true) as Hios'.
  { by destruct (standard_view_inv _ _ (disableBodyScroll_touch_standard_view t o s Hios))
      as (_ & _ & _ & ->). }
  unfold disableBodyScroll at 1. rewrite Hios'. cbn [after].
  unfold disableBodyScroll. rewrite Hios. cbn [after].
  destruct t as [| |e].
  - destruct (truthy (firstTargetElement (vars s))) eqn:Hf; cbn [negb].
    + by rewrite Hf.
    + cbn. apply set_first_twice.
  - destruct (truthy (firstTargetElement (vars s))) eqn:Hf; cbn [negb].
    + by rewrite Hf.
    + cbn. apply set_first_twice.
  - set (s1 := if negb (bool_decide (e ∈ allTargetElements (vars s)))
               then registerTarget e s else s).
    assert (e ∈ allTargetElements (vars s1)) as Hin.
    { subst s1. case_bool_decide as He; cbn [negb]; [done|].
      rewrite registerTarget_allTargetElements. apply elem_of_app. right.
      by apply list_elem_of_singleton. }
    destruct (truthy (firstTargetElement (vars s1))) eqn:Hf; cbn [negb].
    + rewrite (bool_decide_eq_true_2 _ Hin). cbn [negb]. by rewrite Hf.
    + cbn [with_vars vars set_firstTargetElement allTargetElements firstTargetElement
             truthy negb].
      by rewrite (bool_decide_eq_true_2 _ Hin).
Qed.

(** On the standard path a second identical lock only queues its callback
    once more, and that callback changes nothing when it runs. *)
Lemma standard_lock_idempotent t o s :
  isIosDevice (vars s) = false ->
  let once := after (disableBodyScroll t o s) in
  let twice := after (disableBodyScroll t o once) in
  vars twice = vars once /\ doc twice = doc once /\ closures twice = closures once /\
  timers twice = (timers once ++ [HideOverflow o])%list /\
  settle twice = settle once.
Proof.
  intros Hstd once twice.
  assert (isIosDevice (vars once) = false) as Hstd'.
  { exact (eq_trans (exec_isIosDevice (Lock t o) s) Hstd). }
  assert (truthy (firstTargetElement (vars once)) = true \/
          firstTargetElement (vars once) = t) as Hfirst.
  { subst once. unfold disableBodyScroll, setOverflowHidden. rewrite Hstd. cbn [after].
    change (firstTargetElement (vars (setTimeout (HideOverflow o) s)))
      with (firstTargetElement (vars s)).
    destruct (truthy (firstTargetElement (vars s))) eqn:Hf; cbn [negb]; [by left|].
    by right. }
  assert (twice = (if negb (truthy (firstTargetElement (vars once)))
                   then with_vars (set_firstTargetElement t)
                          (setTimeout (HideOverflow o) once)
                   else setTimeout (HideOverflow o) once)) as Htwice.
  { subst twice. unfold disableBodyScroll at 1. by rewrite Hstd'. }
  assert (vars twice = vars once /\ doc twice = doc once /\
          closures twice = closures once /\
          timers twice = (timers once ++ [HideOverflow o])%list) as (Hv & Hd & Hc & Ht).
  { rewrite Htwice. destruct Hfirst as [Hf|Hf].
    - by rewrite Hf.
    - destruct (negb _); [|done]. split_and!; try done.
      apply Vars_ext; try done. }
  split_and!; try done.
  pose proof (settle_exec_standard (Lock t o) once Hstd' eq_refl) as H2.
  pose proof (settle_exec_standard (Lock t o) s Hstd eq_refl) as H1.
  cbn [exec] in H1, H2. fold once in H1. fold twice in H2. rewrite H2, H1.
  unfold settled_exec. cbv zeta. rewrite !hide_first.
  destruct (truthy (firstTargetElement (vars (settle s)))) eqn:Hf; cbn [negb].
  - rewrite hide_first, Hf. cbn [negb]. apply hide_idempotent.
  - rewrite hide_set_first, hide_idempotent.
    cbn [with_vars vars set_firstTargetElement firstTargetElement].
    destruct (truthy t); cbn [negb]; [done|]. apply set_first_twice.
Qed.

(** ** Releasing everything *)

Lemma settle_idle s : timers s = [] -> settle s = s.
Proof. intros Ht. unfold settle. rewrite Ht. cbn [fold_left]. state_eq. by rewrite Ht. Qed.

(** A coherent state without registered targets has no handler, no body
    listener and no element callback of the module. *)
Lemma registry_ok_empty s :
  registry_ok s -> allTargetElements (vars s) = [] ->
  handlers (vars s) = [] /\
  bodyListeners (doc s) = [] /\
  (forall e cb, ontouchstart (doc s) !! e = Some cb -> exists n, cb = Foreign n) /\
  (forall e cb, ontouchmove (doc s) !! e = Some cb -> exists n, cb = Foreign n).
Proof.
  intros Hok Hnil.
  assert (handlers (vars s) = []) as Hh.
  { pose proof (ok_keys _ Hok) as Hk. rewrite Hnil in Hk.
    by destruct (handlers (vars s)). }
  split_and!; [done| | |].
  - destruct (bodyListeners (doc s)) as [|l ls] eqn:Hl; [done|].
    pose proof (ok_listeners _ Hok l) as Hin. rewrite Hl, Hh in Hin.
    exfalso. eapply not_elem_of_nil, Hin. left.
  - intros e cb [?|[_ Hin]]%(ok_start _ Hok); [done|].
    rewrite Hnil in Hin. by apply elem_of_nil in Hin.
  - intros e cb [?|[_ Hin]]%(ok_move _ Hok); [done|].
    rewrite Hnil in Hin. by apply elem_of_nil in Hin.
Qed.

(** ** One capture per locked period *)

Lemma run_task_capture_held t s :
  capture_held (run_task t s) = held_after [t] (capture_held s).
Proof.
  unfold capture_held. destruct t as [o|]; cbn [run_task held_after fold_left].
  - by destruct (hide_captures o s) as [v ->].
  - by destruct (restore_clears s) as [-> _].
Qed.

Lemma fold_run_task_capture_held q s :
  capture_held (fold_left (fun acc t => run_task t acc) q s)
  = held_after q (capture_held s).
Proof.
  revert s. induction q as [|t q IH]; intros s; [done|].
  cbn [fold_left]. rewrite IH, run_task_capture_held. done.
Qed.

Lemma settle_capture_held s :
  capture_held (settle s) = held_after (timers s) (capture_held s).
Proof. unfold settle. by rewrite fold_run_task_capture_held. Qed.

Lemma held_after_app q t b :
  held_after (q ++ [t]) b = match t with HideOverflow _ => true | RestoreOverflow => false end.
Proof. unfold held_after. by rewrite fold_left_app. Qed.

Lemma exec_owner_holds a s : owner_holds s -> owner_holds (after (exec a s)).
Proof.
  unfold owner_holds. intros Hown. rewrite exec_isIosDevice. intros Hstd.
  destruct a as [t o|t| | |e ev|h0]; unfold exec; cbn [after].
  - intros _. unfold disableBodyScroll, setOverflowHidden. rewrite Hstd. cbn [after].
    assert (forall x, held_after (timers x) (capture_held x) = true ->
                      held_after
                        (timers (if negb (truthy (firstTargetElement
                                                    (vars (setTimeout (HideOverflow o) s))))
                                 then with_vars (set_firstTargetElement t) x else x))
                        (capture_held
                           (if negb (truthy (firstTargetElement
                                               (vars (setTimeout (HideOverflow o) s))))
                            then with_vars (set_firstTargetElement t) x else x)) = true)
      as Hwrap by (intros x Hx; by destruct (negb _)).
    apply Hwrap. cbn [setTimeout with_timers timers].
    change (capture_held (with_timers _ s)) with (capture_held s).
    apply (held_after_app (timers s) (HideOverflow o)).
  - unfold enableBodyScroll. rewrite Hstd.
    destruct (strict_eq _ _); cbn [after]; [done|]. by apply Hown.
  - unfold clearAllBodyScrollLocks. rewrite Hstd. done.
  - destruct (tick_frame s) as (_ & -> & _). intros Hf. specialize (Hown Hstd Hf).
    unfold tick. destruct (timers s) as [|t q] eqn:Hq; [by rewrite Hq|].
    destruct (run_task_frame t (with_timers (fun _ => q) s)) as (_ & _ & _ & _ & ->).
    rewrite run_task_capture_held. exact Hown.
  - destruct (ontouchstart (doc s) !! e) as [[]|]; try (by apply Hown).
    unfold onTouchStart. destruct (targetTouches ev) as [|? []]; by apply Hown.
  - by apply Hown.
Qed.

Lemma run_owner_holds acts s : owner_holds s -> owner_holds (run acts s).
Proof.
  revert s. induction acts as [|a acts IH]; intros s Hok; [done|].
  apply IH. by apply exec_owner_holds.
Qed.

Lemma load_owner_holds h p : owner_holds (load h p).
Proof. by intros _ ?. Qed.

(** * The properties of the specification *)

(** ** Unlocking on the standard path *)

(** C1.  On the standard path [enableBodyScroll] schedules the restoring
    callback and clears [firstTargetElement] when its argument is
    [firstTargetElement], and does nothing for any other argument.  The
    callback puts back the saved overflow styles and the saved padding.
    After lock(a), lock(b), unlock(b), with the scheduler running whenever
    it likes, both overflow styles are "hidden" once the pending callbacks
    have run; after unlock(a) the three styles are the page's own again. *)
Theorem standard_unlock_restores_for_first_only :
  (forall s t,
     isIosDevice (vars s) = false ->
     (firstTargetElement (vars s) = t ->
      enableBodyScroll t s =
      Returns (with_vars (set_firstTargetElement JsNull) (setTimeout RestoreOverflow s))) /\
     (firstTargetElement (vars s) <> t -> enableBodyScroll t s = Returns s)) /\
  (forall s v w,
     previousBodyOverflowSetting (vars s) = Some v ->
     previousDocumentElementOverflowSetting (vars s) = Some w ->
     let s' := run_task RestoreOverflow s in
     bodyOverflow (doc s') = v /\ docElOverflow (doc s') = w /\
     previousBodyOverflowSetting (vars s') = None /\
     (forall u, previousBodyPaddingRight (vars s) = Some u ->
                bodyPaddingRight (doc s') = u)) /\
  (forall h p a b oa ob acts acts',
     Platform.detect (runtime h) = false ->
     a <> b ->
     calls acts = [Lock (JsElem a) oa; Lock (JsElem b) ob; Unlock (JsElem b)] ->
     calls acts' = [Unlock (JsElem a)] ->
     let locked := settle (run acts (load h p)) in
     let unlocked := settle (run (acts ++ acts') (load h p)) in
     bodyOverflow (doc locked) = "hidden" /\
     docElOverflow (doc locked) = "hidden" /\
     firstTargetElement (vars locked) = JsElem a /\
     bodyOverflow (doc unlocked) = page_bodyOverflow p /\
     docElOverflow (doc unlocked) = page_docElOverflow p /\
     bodyPaddingRight (doc unlocked) = page_bodyPaddingRight p /\
     firstTargetElement (vars unlocked) = JsNull).
Proof.
  split_and!.
  - intros s t Hstd. unfold enableBodyScroll, restoreOverflowSetting, strict_eq.
    rewrite Hstd. split; intros Hf.
    + by rewrite bool_decide_eq_true_2.
    + by rewrite bool_decide_eq_false_2.
  - intros s v w Hov Hdoc s'. subst s'. cbn [run_task].
    destruct (restore_overflow_held s v w Hov Hdoc) as (-> & _ & -> & ->).
    split_and!; try done. intros u Hu. by destruct (restore_padding_held s u Hu).
  - intros h p a b oa ob acts acts' Hstd Hab Hacts Hacts' locked unlocked.
    assert (isIosDevice (vars (load h p)) = false) as Hload by done.
    assert (locked =
            hideOverflowCallback ob
              (with_vars (set_firstTargetElement (JsElem a))
                 (hideOverflowCallback oa (load h p)))) as Hlocked.
    { subst locked. rewrite (settle_run_standard _ _ Hload).
      2:{ apply (calls_only _ _ Hacts). by repeat constructor. }
      rewrite Hacts, settle_load. unfold settled_run. cbn [fold_left].
      unfold settled_exec at 3. cbv zeta. rewrite hide_first.
      cbn [load vars firstTargetElement truthy negb].
      unfold settled_exec at 2. cbv zeta. rewrite hide_first.
      cbn [with_vars vars set_firstTargetElement firstTargetElement truthy negb].
      unfold settled_exec, strict_eq. rewrite hide_first.
      cbn [with_vars vars set_firstTargetElement firstTargetElement].
      rewrite bool_decide_eq_false_2 by congruence. done. }
    assert (unlocked =
            with_vars (set_firstTargetElement JsNull) (restoreOverflowCallback locked))
      as Hunlocked.
    { subst unlocked. rewrite (settle_run_standard _ _ Hload).
      2:{ apply (calls_only _ (calls acts ++ calls acts')%list (calls_app _ _)).
          rewrite Hacts, Hacts'. by repeat constructor. }
      rewrite calls_app, Hacts'. unfold settled_run. rewrite fold_left_app.
      fold (settled_run (calls acts) (settle (load h p))).
      rewrite <-(settle_run_standard _ _ Hload)
        by (apply (calls_only _ _ Hacts); by repeat constructor).
      fold locked. cbn [fold_left]. unfold settled_exec, strict_eq.
      rewrite bool_decide_eq_true_2; [done|].
      rewrite Hlocked, hide_first. done. }
    pose proof (reachable_settled_styles_ok h p acts) as Hok. fold locked in Hok.
    pose proof (reachable_settled_styles_ok h p (acts ++ acts')) as Hok'.
    fold unlocked in Hok'.
    destruct (styles_ok_held p locked Hok) as [-> ->].
    { rewrite Hlocked. apply hide_captures. }
    destruct (restore_clears locked) as [Hc1 Hc2].
    destruct (styles_ok_free p unlocked Hok') as (-> & -> & ->);
      [by rewrite Hunlocked..|].
    split_and!; try done.
    + by rewrite Hlocked, hide_first.
    + by rewrite Hunlocked.
Qed.

Lemma standard_unlock_restores_for_first_only_witness :
  let s := run [Lock (JsElem elemA) None; Tick; Lock (JsElem elemB) None]
             (load desktop sample_page) in
  let acts := [Lock (JsElem elemA) None; Tick; Lock (JsElem elemB) None;
               Unlock (JsElem elemB); Tick] in
  enableBodyScroll (JsElem elemB) s = Returns s /\
  enableBodyScroll (JsElem elemA) s =
    Returns (with_vars (set_firstTargetElement JsNull) (setTimeout RestoreOverflow s)) /\
  bodyOverflow (doc (settle (run acts (load desktop sample_page)))) = "hidden" /\
  docElOverflow (doc (settle (run acts (load desktop sample_page)))) = "hidden" /\
  bodyOverflow
    (doc (settle (run (acts ++ [Unlock (JsElem elemA)]) (load desktop sample_page))))
    = "auto" /\
  docElOverflow
    (doc (settle (run (acts ++ [Unlock (JsElem elemA)]) (load desktop sample_page))))
    = "".
Proof.
  intros s acts.
  destruct standard_unlock_restores_for_first_only as (Hcall & _ & Hscenario).
  destruct (Hcall s (JsElem elemB) eq_refl) as [_ Hother].
  destruct (Hcall s (JsElem elemA) eq_refl) as [Hfirst _].
  destruct (Hscenario desktop sample_page elemA elemB None None acts
              [Unlock (JsElem elemA)] eq_refl ltac:(discriminate) eq_refl eq_refl)
    as (H1 & H2 & _ & H3 & H4 & _).
  split_and!.
  - apply Hother. discriminate.
  - by apply Hfirst.
  - exact H1.
  - exact H2.
  - exact H3.
  - exact H4.
Defined.

(** ** The touchmove callback of a target *)

(** C2.  In every reachable state, for a registered target [e] and a
    [touchmove] event with exactly one touch, [e.ontouchmove] calls
    [handleScroll], which prevents the default action and returns [false]
    when the target's [scrollTop] is 0 and the touch is below
    [initialClientY], or when [scrollHeight - scrollTop <= clientHeight] and
    the touch is above [initialClientY]; in every other case it returns
    [true] and leaves the event as it is. *)
Theorem touchmove_single_touch (h : Host) (p : Page) (acts : list Action)
    (e : Elem) (event : TouchEvent) (touch : Touch) :
  let s := run acts (load h p) in
  e ∈ allTargetElements (vars s) ->
  targetTouches event = [touch] ->
  let delta := PrimFloat.sub (clientY touch) (initialClientY (vars s)) in
  let m := metrics (host s) e in
  let at_top := PrimFloat.eqb (scrollTop m) 0 && PrimFloat.ltb 0 delta in
  let at_bottom :=
    PrimFloat.leb (PrimFloat.sub (scrollHeight m) (scrollTop m)) (clientHeight m)
    && PrimFloat.ltb delta 0 in
  let outcome :=
    if at_top || at_bottom
    then {| target := target event; targetTouches := targetTouches event;
            defaultPrevented := true |}
    else event in
  handleScroll event (JsElem e) s = Some (negb (at_top || at_bottom), outcome) /\
  elementTouchMove e event s = Some outcome.
Proof.
  intros s Hin Hone delta m at_top at_bottom outcome.
  pose proof (run_registry_ok acts _ (load_registry_ok h p)) as Hok.
  destruct (ok_installed _ Hok e Hin) as [_ Hmove].
  assert (handleScroll event (JsElem e) s = Some (negb (at_top || at_bottom), outcome))
    as Hscroll.
  { unfold handleScroll. rewrite Hone.
    fold delta. cbn [isTargetElementTotallyScrolled]. fold m. fold at_top. fold at_bottom.
    subst outcome. by destruct at_top; [|destruct at_bottom]. }
  split; [done|].
  unfold elementTouchMove. subst s. rewrite Hmove.
  unfold onTouchMove. by rewrite Hone, Hscroll.
Qed.

Lemma touchmove_single_touch_witness :
  elementTouchMove elemA (one_touch elemA 100)
    (run [Lock (JsElem elemA) None; ElementTouchStart elemA (one_touch elemA 40)]
       (load phone sample_page))
  = Some {| target := elemA; targetTouches := [{| clientY := 100%float |}];
            defaultPrevented := true |}.
Proof.
  exact (proj2 (touchmove_single_touch phone sample_page
                  [Lock (JsElem elemA) None; ElementTouchStart elemA (one_touch elemA 40)]
                  elemA (one_touch elemA 100) {| clientY := 100%float |}
                  ltac:(vm_compute; left) eq_refl)).
Defined.

(** The same gesture on a target scrolled to the middle is let through. *)
Example touchmove_mid_scroll :
  let h := {| runtime := runtime phone; innerWidth := 375; clientWidth := 375;
              metrics := fun _ => {| scrollTop := 120.5%float;
                                     scrollHeight := 300%float;
                                     clientHeight := 100%float |};
              contains := Pos.eqb |} in
  elementTouchMove elemA (one_touch elemA 100)
    (run [Lock (JsElem elemA) None; ElementTouchStart elemA (one_touch elemA 40)]
       (load h sample_page))
  = Some (one_touch elemA 100).
Proof. reflexivity. Qed.

(** ** Absent, repeated and unknown targets *)

(** C3, as amended.  For a target that is an element, [null] or
    [undefined], [disableBodyScroll] always returns, as does
    [clearAllBodyScrollLocks], and [enableBodyScroll] returns on the
    standard path and for every element.  (Values of other kinds, which
    the module's untyped parameter would also take, are not targets here.)
    On the touch path a lock with an absent or an
    already registered target changes nothing but [firstTargetElement],
    which it sets when it is unset; an unlock of an element that is not
    registered changes nothing but that element's two touch callbacks,
    which it nulls (so it changes nothing when they are null).  On the
    standard path an unlock of anything but [firstTargetElement] changes
    nothing, and a lock always schedules the hiding callback, whatever its
    target. *)
Theorem invalid_input_tolerated :
  (forall s t o, disableBodyScroll t o s = Returns (after (disableBodyScroll t o s))) /\
  (forall s, clearAllBodyScrollLocks s = Returns (after (clearAllBodyScrollLocks s))) /\
  (forall s t,
     isIosDevice (vars s) = false \/ truthy t = true ->
     enableBodyScroll t s = Returns (after (enableBodyScroll t s))) /\
  (forall s t o,
     isIosDevice (vars s) = true ->
     truthy t = false \/ (exists e, t = JsElem e /\ e ∈ allTargetElements (vars s)) ->
     disableBodyScroll t o s =
     Returns (if truthy (firstTargetElement (vars s)) then s
              else with_vars (set_firstTargetElement t) s)) /\
  (forall s e,
     isIosDevice (vars s) = true ->
     e ∉ allTargetElements (vars s) ->
     enableBodyScroll (JsElem e) s = Returns (null_callbacks e s) /\
     (ontouchstart (doc s) !! e = None -> ontouchmove (doc s) !! e = None ->
      enableBodyScroll (JsElem e) s = Returns s)) /\
  (forall s t,
     isIosDevice (vars s) = false ->
     firstTargetElement (vars s) <> t ->
     enableBodyScroll t s = Returns s) /\
  (forall s t o,
     isIosDevice (vars s) = false ->
     timers (after (disableBodyScroll t o s)) = (timers s ++ [HideOverflow o])%list).
Proof.
  split_and!.
  - done.
  - done.
  - intros s t [Hstd|Ht].
    + unfold enableBodyScroll. rewrite Hstd. by destruct (strict_eq _ _).
    + destruct t as [| |e]; try done. unfold enableBodyScroll.
      by destruct (isIosDevice (vars s)); [|destruct (strict_eq _ _)].
  - intros s t o Hios Ht. unfold disableBodyScroll. rewrite Hios. f_equal.
    assert (match t with
            | JsElem e =>
                if negb (bool_decide (e ∈ allTargetElements (vars s)))
                then registerTarget e s else s
            | _ => s
            end = s) as ->.
    { destruct Ht as [Ht|(e & -> & Hin)]; [by destruct t|].
      by rewrite bool_decide_eq_true_2. }
    by destruct (truthy (firstTargetElement (vars s))).
  - intros s e Hios Hnin.
    assert (enableBodyScroll (JsElem e) s = Returns (null_callbacks e s)) as Hnull.
    { unfold enableBodyScroll. rewrite Hios, (release_loop_notin _ _ _ Hnin). f_equal.
      unfold null_callbacks. state_eq. by apply filter_ne_notin. }
    split; [done|]. intros Hs Hm. rewrite Hnull. f_equal.
    unfold null_callbacks. state_eq; by apply delete_id.
  - intros s t Hstd Hne. unfold enableBodyScroll, strict_eq. rewrite Hstd.
    by rewrite bool_decide_eq_false_2.
  - intros s t o Hstd. unfold disableBodyScroll, setOverflowHidden. rewrite Hstd.
    cbn [after]. by destruct (negb _).
Qed.

Lemma invalid_input_tolerated_witness :
  let s := run [Lock (JsElem elemA) None] (load phone sample_page) in
  let d := run [Lock (JsElem elemA) None] (load desktop sample_page) in
  enableBodyScroll JsNull d = Returns d /\
  disableBodyScroll JsUndefined None s = Returns s /\
  disableBodyScroll (JsElem elemA) reserve s = Returns s /\
  enableBodyScroll (JsElem elemB) s = Returns s /\
  enableBodyScroll (JsElem elemB) d = Returns d /\
  timers (after (disableBodyScroll JsNull None d))
    = (timers d ++ [HideOverflow None])%list.
Proof.
  intros s d.
  destruct invalid_input_tolerated as (_ & _ & _ & Hlock & Hunlock & Hother & Hsched).
  assert (isIosDevice (vars s) = true) as Hs by (vm_compute; reflexivity).
  assert (isIosDevice (vars d) = false) as Hd by (vm_compute; reflexivity).
  assert (truthy (firstTargetElement (vars s)) = true) as Hf by (vm_compute; reflexivity).
  pose proof (Hlock s JsUndefined None Hs (or_introl eq_refl)) as Habsent.
  assert (elemA ∈ allTargetElements (vars s)) as Hin by (vm_compute; left).
  pose proof (Hlock s (JsElem elemA) reserve Hs
                (or_intror (ex_intro _ elemA (conj eq_refl Hin)))) as Hagain.
  rewrite Hf in Habsent, Hagain.
  split_and!.
  - apply (Hother d JsNull Hd). vm_compute. discriminate.
  - exact Habsent.
  - exact Hagain.
  - refine (proj2 (Hunlock s elemB Hs _) _ _); [|vm_compute; reflexivity..].
    vm_compute. intros Hb. inversion Hb as [|? ? ? Hb']. inversion Hb'.
  - apply (Hother d (JsElem elemB) Hd). vm_compute. discriminate.
  - exact (Hsched d JsNull None Hd).
Defined.

(** C3, as stated, fails: on the standard path a lock without a target is
    no no-op, it schedules the hiding callback, which saves the overflow
    styles and hides the overflow, and so does a second lock of a locked
    target.  On the touch path a lock of a registered target sets
    [firstTargetElement] when that is unset, and an unlock of an element
    that was never locked nulls the callbacks the page gave it. *)
Lemma lock_without_target_hides_overflow :
  let s := load desktop sample_page in
  let locked := after (disableBodyScroll JsNull None s) in
  let relocked := run [Lock (JsElem elemA) None; Tick; Lock (JsElem elemA) None] s in
  let t := run [Lock (JsElem elemA) None; Lock (JsElem elemB) None; Unlock (JsElem elemA)]
             (load phone sample_page) in
  let u := load phone busy_page in
  (isIosDevice (vars s) = false /\
   timers s = [] /\
   timers locked = [HideOverflow None] /\
   bodyOverflow (doc s) = "auto" /\
   previousBodyOverflowSetting (vars s) = None /\
   bodyOverflow (doc (settle locked)) = "hidden" /\
   docElOverflow (doc (settle locked)) = "hidden" /\
   previousBodyOverflowSetting (vars (settle locked)) = Some "auto") /\
  timers relocked = [HideOverflow None] /\
  (elemB ∈ allTargetElements (vars t) /\
   firstTargetElement (vars t) = JsNull /\
   firstTargetElement (vars (after (disableBodyScroll (JsElem elemB) None t)))
     = JsElem elemB) /\
  (allTargetElements (vars u) = [] /\
   ontouchstart (doc u) !! elemB = Some (Foreign 0) /\
   ontouchstart (doc (after (enableBodyScroll (JsElem elemB) u))) !! elemB = None).
Proof. split_and!; try done. vm_compute. left. Qed.

(** What [enableBodyScroll] does on the touch path without a target: the
    write of [ontouchstart] throws, and nothing has changed by then. *)
Example unlock_without_target_on_touch_path :
  enableBodyScroll JsNull (run [Lock (JsElem elemA) None] (load phone sample_page))
  = Throws (run [Lock (JsElem elemA) None] (load phone sample_page)) /\
  enableBodyScroll JsUndefined (load phone sample_page) = Throws (load phone sample_page).
Proof. by split. Qed.

(** ** Releasing every lock *)

(** C4.  In every reachable state one call of [clearAllBodyScrollLocks]
    leaves no registered target, no handler, no body listener, no element
    callback of the module, [firstTargetElement] null and [initialClientY]
    -1; once the pending callbacks have run, the module's variables are
    what they were when the module was loaded, no callback is pending and
    the three styles are the page's own. *)
Theorem unlockAll_resets (h : Host) (p : Page) (acts : list Action) :
  let s := run acts (load h p) in
  let cleared := after (clearAllBodyScrollLocks s) in
  let settled := settle cleared in
  clearAllBodyScrollLocks s = Returns cleared /\
  firstTargetElement (vars cleared) = JsNull /\
  allTargetElements (vars cleared) = [] /\
  handlers (vars cleared) = [] /\
  initialClientY (vars cleared) = (-1)%float /\
  bodyListeners (doc cleared) = [] /\
  (forall e cb, ontouchstart (doc cleared) !! e = Some cb -> exists n, cb = Foreign n) /\
  (forall e cb, ontouchmove (doc cleared) !! e = Some cb -> exists n, cb = Foreign n) /\
  vars settled = vars (load h p) /\
  timers settled = [] /\
  bodyListeners (doc settled) = [] /\
  bodyOverflow (doc settled) = page_bodyOverflow p /\
  docElOverflow (doc settled) = page_docElOverflow p /\
  bodyPaddingRight (doc settled) = page_bodyPaddingRight p.
Proof.
  intros s cleared settled.
  pose proof (run_registry_ok acts _ (load_registry_ok h p)) as Hok. fold s in Hok.
  pose proof (exec_registry_ok UnlockAll s Hok) as Hokc.
  cbn [exec] in Hokc. fold cleared in Hokc.
  pose proof (run_isIosDevice acts (load h p)) as Hi. fold s in Hi.
  cbn [load vars isIosDevice] in Hi.
  assert (firstTargetElement (vars cleared) = JsNull) as Hfirst by done.
  assert (allTargetElements (vars cleared) = [] /\
          initialClientY (vars cleared) = (-1)%float) as [Hall Hy].
  { destruct (isIosDevice (vars s)) eqn:Hios.
    - subst cleared. by rewrite (clearAllBodyScrollLocks_touch s Hios).
    - apply (ok_standard _ Hokc).
      exact (eq_trans (exec_isIosDevice UnlockAll s) Hios). }
  destruct (registry_ok_empty cleared Hokc Hall) as (Hh & Hl & Hs & Hm).
  assert (previousBodyOverflowSetting (vars settled) = None /\
          previousBodyPaddingRight (vars settled) = None) as [Hov Hpad].
  { destruct (isIosDevice (vars s)) eqn:Hios.
    - pose proof (exec_touch_idle UnlockAll s
                    (run_touch_idle acts _ (load_touch_idle h p))) as Hidle.
      cbn [exec] in Hidle. fold cleared in Hidle.
      destruct Hidle as (Ht & Ho & _ & Hp).
      { exact (eq_trans (exec_isIosDevice UnlockAll s) Hios). }
      subst settled. by rewrite (settle_idle cleared Ht).
    - pose proof (settle_exec_standard UnlockAll s Hios eq_refl) as Hs'.
      cbn [exec settled_exec] in Hs'. fold cleared in Hs'. fold settled in Hs'.
      rewrite Hs'. apply restore_clears. }
  pose proof (settle_styles_ok p cleared
                (exec_styles_ok p UnlockAll s (run_styles_ok p acts _ (load_styles_ok h p))))
    as Hst.
  fold settled in Hst.
  destruct (styles_ok_free p settled Hst Hov Hpad) as (Hb & Hd & Hp).
  destruct (settle_frame cleared) as (Hv%touch_view_inv & Hf & Hios' & _ & Ht).
  fold settled in Hv, Hf, Hios', Ht.
  destruct Hv as (Hall' & Hh' & Hy' & Hl' & _).
  split_and!; try done.
  - apply Vars_ext; cbn [load vars isIosDevice firstTargetElement allTargetElements
                           initialClientY previousBodyOverflowSetting
                           previousDocumentElementOverflowSetting
                           previousBodyPaddingRight handlers].
    + rewrite Hios'. exact (eq_trans (exec_isIosDevice UnlockAll s) Hi).
    + by rewrite Hf.
    + by rewrite Hall'.
    + by rewrite Hy'.
    + done.
    + destruct Hst as [Hst _]. rewrite Hov in Hst. by destruct Hst.
    + done.
    + by rewrite Hh'.
  - by rewrite Hl'.
Qed.

(** No target, one target, several targets. *)
Example unlockAll_resets_touch :
  Forall (fun locks =>
            let s := after (clearAllBodyScrollLocks (run locks (load phone sample_page))) in
            vars s = vars (load phone sample_page) /\
            bodyListeners (doc s) = [] /\
            ontouchstart (doc s) = ∅ /\ ontouchmove (doc s) = ∅)
    [ [];
      [Lock (JsElem elemA) None; ElementTouchStart elemA (one_touch elemA 7)];
      [Lock (JsElem elemA) None; Lock (JsElem elemB) None; Lock (JsElem 3%positive) None] ].
Proof. repeat constructor. Qed.

(** ** Locking a target twice *)

(** C5.  In every reachable state a second call of [disableBodyScroll] with
    the same target and options leaves the module's variables, the
    document (listeners and element callbacks included) and the closure
    count as the first call left them; on the standard path it queues one
    more callback, which changes nothing when it runs, however many
    scheduler turns separate the two calls.  No target is twice in
    [allTargetElements]. *)
Theorem lock_twice_is_lock_once (h : Host) (p : Page) (acts : list Action)
    (t : JsTarget) (o : option BodyScrollOptions) :
  let s := run acts (load h p) in
  let once := after (disableBodyScroll t o s) in
  let twice := after (disableBodyScroll t o once) in
  vars twice = vars once /\
  doc twice = doc once /\
  closures twice = closures once /\
  timers twice =
    (if isIosDevice (vars s) then timers once
     else (timers once ++ [HideOverflow o])%list) /\
  (forall k, settle (after (disableBodyScroll t o (ticks k once))) = settle once) /\
  length (allTargetElements (vars twice)) = length (allTargetElements (vars once)) /\
  NoDup (allTargetElements (vars once)) /\
  NoDup (allTargetElements (vars twice)).
Proof.
  intros s once twice.
  assert (registry_ok twice) as Hok.
  { apply (exec_registry_ok (Lock t o) once), (exec_registry_ok (Lock t o) s),
      run_registry_ok, load_registry_ok. }
  destruct (isIosDevice (vars s)) eqn:Hios.
  - assert (twice = once) as Heq by (subst twice once; by apply touch_lock_idempotent).
    assert (timers once = []) as Hidle.
    { assert (isIosDevice (vars once) = true) as Hios'
        by exact (eq_trans (exec_isIosDevice (Lock t o) s) Hios).
      by destruct (exec_touch_idle (Lock t o) s
                     (run_touch_idle acts _ (load_touch_idle h p)) Hios'). }
    split_and!; try (by rewrite Heq); try apply Hok.
    + intros k. rewrite (ticks_idle k once Hidle). fold twice. by rewrite Heq.
    + rewrite <-Heq. apply Hok.
  - destruct (standard_lock_idempotent t o s Hios) as (Hv & Hd & Hc & Ht & Hs).
    fold once in Hv, Hd, Hc, Ht, Hs. fold twice in Hv, Hd, Hc, Ht, Hs.
    assert (isIosDevice (vars once) = false) as Hstd'
      by exact (eq_trans (exec_isIosDevice (Lock t o) s) Hios).
    split_and!; try done; rewrite <-?Hv; try done; try apply Hok.
    intros k. rewrite <-Hs.
    pose proof (settle_exec_standard (Lock t o) (ticks k once)
                  (eq_trans (ticks_isIosDevice k once) Hstd') eq_refl) as H1.
    pose proof (settle_exec_standard (Lock t o) once Hstd' eq_refl) as H2.
    cbn [exec] in H1, H2. fold twice in H2. by rewrite H1, H2, settle_ticks.
Qed.

(** Two locks of one target on the touch path register it once. *)
Example lock_twice_registers_once :
  let s := run [Lock (JsElem elemA) reserve; Lock (JsElem elemA) None]
             (load phone sample_page) in
  allTargetElements (vars s) = [elemA] /\ length (bodyListeners (doc s)) = 2 /\
  s = run [Lock (JsElem elemA) reserve] (load phone sample_page).
Proof. by split_and!. Qed.

(** ** The saved styles *)

(** C6.  The hiding callback never writes over a capture: while overflow
    styles are saved it leaves them, their saved copies and both styles
    alone, and while a padding is saved it leaves it and the padding alone.
    The restoring callback does nothing when nothing is saved.  So in every
    reachable state the saved values are the page's own styles (a held
    capture holds the page's styles while "hidden" is in force; with none
    held the styles are the page's).  On the standard path a lock called
    while [firstTargetElement] is set captures no overflow style: only the
    first lock of a locked period does. *)
Theorem saved_styles_never_overwritten :
  (forall o s v,
     previousBodyOverflowSetting (vars s) = Some v ->
     let s' := hideOverflowCallback o s in
     previousBodyOverflowSetting (vars s') = Some v /\
     previousDocumentElementOverflowSetting (vars s')
       = previousDocumentElementOverflowSetting (vars s) /\
     bodyOverflow (doc s') = bodyOverflow (doc s) /\
     docElOverflow (doc s') = docElOverflow (doc s)) /\
  (forall o s v,
     previousBodyPaddingRight (vars s) = Some v ->
     let s' := hideOverflowCallback o s in
     previousBodyPaddingRight (vars s') = Some v /\
     bodyPaddingRight (doc s') = bodyPaddingRight (doc s)) /\
  (forall s,
     previousBodyOverflowSetting (vars s) = None ->
     previousBodyPaddingRight (vars s) = None ->
     overflow_view (restoreOverflowCallback s) = overflow_view s) /\
  (forall h p acts, styles_ok p (run acts (load h p))) /\
  (forall h p acts t o,
     Platform.detect (runtime h) = false ->
     let s := run acts (load h p) in
     truthy (firstTargetElement (vars s)) = true ->
     let before := settle s in
     let relocked := settle (after (disableBodyScroll t o s)) in
     capture_held before = true /\
     previousBodyOverflowSetting (vars relocked) = previousBodyOverflowSetting (vars before) /\
     previousDocumentElementOverflowSetting (vars relocked)
       = previousDocumentElementOverflowSetting (vars before) /\
     bodyOverflow (doc relocked) = bodyOverflow (doc before) /\
     docElOverflow (doc relocked) = docElOverflow (doc before)).
Proof.
  split_and!.
  - intros o s v Hov. apply (hide_overflow_held o s v Hov).
  - intros o s v Hpad s'. subst s'.
    destruct (hide_padding_kept o s) as [-> ->]; [left; congruence|done].
  - intros s Hov Hpad. unfold overflow_view.
    destruct (restore_overflow_free s Hov) as (-> & -> & -> & ->).
    destruct (restore_padding_free s Hpad) as (-> & ->). by rewrite Hov, Hpad.
  - intros h p acts. apply run_styles_ok, load_styles_ok.
  - intros h p acts t o Hstd s Hf before relocked.
    assert (isIosDevice (vars s) = false) as Hs
      by (subst s; by rewrite run_isIosDevice).
    assert (capture_held before = true) as Hheld.
    { subst before. rewrite settle_capture_held.
      by apply (run_owner_holds acts _ (load_owner_holds h p)). }
    split; [done|].
    pose proof (settle_exec_standard (Lock t o) s Hs eq_refl) as Hsettled.
    cbn [exec settled_exec] in Hsettled. fold relocked in Hsettled. fold before in Hsettled.
    unfold capture_held in Hheld.
    destruct (previousBodyOverflowSetting (vars before)) as [v|] eqn:Hov; [|done].
    destruct (hide_overflow_held o before v Hov) as (H1 & H2 & H3 & H4).
    rewrite Hsettled. cbv zeta. by destruct (negb _).
Qed.

Lemma saved_styles_never_overwritten_witness :
  let s := run [Lock (JsElem elemA) None; Tick] (load desktop sample_page) in
  previousBodyOverflowSetting (vars (hideOverflowCallback None s)) = Some "auto" /\
  bodyOverflow (doc (hideOverflowCallback None s)) = "hidden" /\
  previousBodyOverflowSetting
    (vars (settle (after (disableBodyScroll (JsElem elemB) None s)))) = Some "auto".
Proof.
  intros s.
  destruct saved_styles_never_overwritten as (Hguard & _ & _ & _ & Hrelock).
  destruct (Hguard None s "auto" eq_refl) as (H1 & _ & H3 & _).
  destruct (Hrelock desktop sample_page [Lock (JsElem elemA) None; Tick]
              (JsElem elemB) None eq_refl eq_refl) as (_ & H5 & _).
  split_and!; [exact H1|exact H3|exact H5].
Defined.

(** ** The scroll bar gap *)




(** ** The platform test *)

(** C8, as amended.  The platform test is a function of what the runtime
    reports when the module is evaluated: it holds exactly when [window],
    [window.navigator] and the platform string are there and the string
    contains "iPad", "iPhone" or "iPod"; it fails when any of them is absent
    or the string is empty.  Its value is fixed at load: after any trace,
    whatever the host reports by then, the exports branch on the value
    computed from the host the module was loaded in. *)
Theorem platform_test_fixed_at_load :
  (forall r, Platform.detect r = true <->
     exists p before device rest,
       r = Platform.Navigator (Some p) /\
       device ∈ ["iPad"; "iPhone"; "iPod"] /\
       p = before +:+ device +:+ rest) /\
  Platform.detect Platform.NoWindow = false /\
  Platform.detect Platform.NoNavigator = false /\
  Platform.detect (Platform.Navigator None) = false /\
  Platform.detect (Platform.Navigator (Some "")) = false /\
  (forall h p acts,
     isIosDevice (vars (run acts (load h p))) = Platform.detect (runtime h)).
Proof.
  split_and!; try reflexivity.
  - intros r. rewrite detect_spec. split.
    + intros (p & -> & Ht). apply test_spec in Ht. rewrite !occurs_spec in Ht.
      destruct Ht as [(b & t & ->)|[(b & t & ->)|(b & t & ->)]].
      * exists (b +:+ "iPad" +:+ t), b, "iPad", t. split_and!; [done| |done].
        apply list_elem_of_In. simpl. tauto.
      * exists (b +:+ "iPhone" +:+ t), b, "iPhone", t. split_and!; [done| |done].
        apply list_elem_of_In. simpl. tauto.
      * exists (b +:+ "iPod" +:+ t), b, "iPod", t. split_and!; [done| |done].
        apply list_elem_of_In. simpl. tauto.
    + intros (p & b & d & t & -> & Hd & ->). eexists. split; [done|].
      apply test_spec. rewrite !occurs_spec.
      apply elem_of_cons in Hd as [->|Hd]; [left; eauto|].
      apply elem_of_cons in Hd as [->|Hd]; [right; left; eauto|].
      apply list_elem_of_singleton in Hd as ->. right; right; eauto.
  - intros h p acts. by rewrite run_isIosDevice.
Qed.

(** C8, as stated, fails: the module is loaded on a desktop, the host then
    reports "iPhone", and a lock called at that moment still takes the
    standard path, exactly as the same call does while the host reports
    "MacIntel". *)
Lemma platform_test_not_reevaluated :
  let loaded := load desktop sample_page in
  let later := run [HostChange phone] loaded in
  Platform.detect (runtime (host later)) = true /\
  Platform.detect (runtime (host loaded)) = false /\
  after (exec (Lock (JsElem elemA) None) later) =
    with_host phone (after (exec (Lock (JsElem elemA) None) loaded)) /\
  allTargetElements (vars (after (exec (Lock (JsElem elemA) None) later))) = [] /\
  timers (after (exec (Lock (JsElem elemA) None) later)) = [HideOverflow None].
Proof. by split_and!. Qed.

(** ** The touch origin *)

(** A trace in which the host delivers no [touchstart] at all is one of
    those that leave the origin alone. *)
Lemma origin_untouched_without_touchstart acts s :
  Forall (fun a => match a with ElementTouchStart _ _ => False | _ => True end) acts ->
  origin_untouched acts s = true.
Proof.
  intros Hacts. revert s. induction Hacts as [|a acts Ha _ IH]; intros s; [done|].
  cbn [origin_untouched]. rewrite IH. by destruct a.
Qed.

(** C9, as amended.  [initialClientY] is -1 from load, and again from every
    [clearAllBodyScrollLocks], for as long as the host delivers no
    [touchstart] with exactly one touch to a registered target: calls of
    the exports, scheduler turns, [touchstart]s with no or several touches
    and [touchstart]s on elements that are not registered leave it at -1.
    A [touchstart] with one touch on a registered target stores the touch's
    [clientY] in it.  On the standard path it is -1 in every reachable
    state.  [enableBodyScroll] leaves it as it is. *)
Theorem initialClientY_sentinel :
  (forall h p pre post,
     (origin_untouched post (load h p) = true ->
      initialClientY (vars (run post (load h p))) = (-1)%float) /\
     (origin_untouched post (after (clearAllBodyScrollLocks (run pre (load h p)))) = true ->
      initialClientY (vars (run (pre ++ UnlockAll :: post) (load h p))) = (-1)%float)) /\
  (forall h p acts e event touch0,
     e ∈ allTargetElements (vars (run acts (load h p))) ->
     targetTouches event = [touch0] ->
     initialClientY (vars (run (acts ++ [ElementTouchStart e event]) (load h p)))
     = clientY touch0) /\
  (forall h p acts,
     Platform.detect (runtime h) = false ->
     initialClientY (vars (run acts (load h p))) = (-1)%float) /\
  (forall t s,
     initialClientY (vars (after (enableBodyScroll t s))) = initialClientY (vars s)).
Proof.
  assert (forall t s,
    initialClientY (vars (after (enableBodyScroll t s))) = initialClientY (vars s))
    as Hunlock.
  { intros t s. destruct (isIosDevice (vars s)) eqn:Hios.
    + unfold enableBodyScroll. rewrite Hios.
      assert (initialClientY
                (vars (fold_left (releaseTarget t) (allTargetElements (vars s)) s))
              = initialClientY (vars s)) as Hloop.
      { apply (fold_left_preserves
                 (fun x => initialClientY (vars x) = initialClientY (vars s))); [done|].
        intros x b Hx. unfold releaseTarget.
        destruct (strict_eq t (JsElem b)); [|done]. cbv zeta.
        by destruct (strict_eq t _). }
      by destruct t.
    + destruct (exec_standard_frame (Unlock t) s Hios I) as (Hv%touch_view_inv & _).
      by destruct Hv as (_ & _ & ? & _). }
  assert (forall a s,
    registry_ok s -> records_origin a s = false ->
    initialClientY (vars s) = (-1)%float ->
    initialClientY (vars (after (exec a s))) = (-1)%float) as Hstep.
  { intros a s Hok Ha Hy. destruct a as [t o|t| | |e ev|h0].
    - destruct (isIosDevice (vars s)) eqn:Hios.
      + unfold exec, disableBodyScroll. rewrite Hios. cbn [after].
        destruct t as [| |e]; try (by destruct (negb _)).
        destruct (negb (bool_decide _)); [|by destruct (negb _)].
        assert (initialClientY (vars (registerTarget e s)) = (-1)%float) as Hr
          by (unfold registerTarget; by reduce_fields).
        by destruct (negb _).
      + destruct (exec_standard_frame (Lock t o) s Hios I) as (Hv%touch_view_inv & _).
        destruct Hv as (_ & _ & -> & _). done.
    - cbn [exec]. by rewrite Hunlock.
    - destruct (isIosDevice (vars s)) eqn:Hios.
      + cbn [exec]. by rewrite (clearAllBodyScrollLocks_touch s Hios).
      + destruct (exec_standard_frame UnlockAll s Hios I) as (Hv%touch_view_inv & _).
        destruct Hv as (_ & _ & -> & _). done.
    - cbn [exec after]. destruct (tick_frame s) as (Hv%touch_view_inv & _).
      destruct Hv as (_ & _ & -> & _). done.
    - cbn [exec after]. cbn [records_origin] in Ha.
      destruct (ontouchstart (doc s) !! e) as [cb|] eqn:Hcb; [|done].
      destruct (ok_start _ Hok e cb Hcb) as [[n ->]|[-> Hin]]; [done|].
      rewrite (bool_decide_eq_true_2 _ Hin) in Ha. cbn [andb] in Ha.
      apply bool_decide_eq_false_1 in Ha. unfold onTouchStart.
      by destruct (targetTouches ev) as [|t0 [|t1 ts]].
    - done. }
  assert (forall post s,
    registry_ok s -> origin_untouched post s = true ->
    initialClientY (vars s) = (-1)%float ->
    initialClientY (vars (run post s)) = (-1)%float) as Hrun.
  { induction post as [|a post IH]; intros s Hok Hpost Hy; [done|].
    cbn [origin_untouched] in Hpost. apply andb_true_iff in Hpost as [Ha Hpost].
    apply negb_true_iff in Ha.
    change (run (a :: post) s) with (run post (after (exec a s))).
    apply IH; [by apply exec_registry_ok|done|by apply Hstep]. }
  split_and!.
  - intros h p pre post. split; intros Hpost.
    + by apply Hrun; [apply load_registry_ok| |].
    + unfold run. rewrite fold_left_app. cbn [fold_left].
      fold (run pre (load h p)). fold (run post (after (exec UnlockAll (run pre (load h p))))).
      pose proof (run_registry_ok pre _ (load_registry_ok h p)) as Hok.
      apply Hrun; [by apply exec_registry_ok|exact Hpost|].
      set (s := run pre (load h p)) in *.
      destruct (isIosDevice (vars s)) eqn:Hios.
      * cbn [exec]. by rewrite (clearAllBodyScrollLocks_touch s Hios).
      * destruct (exec_standard_frame UnlockAll s Hios I) as (Hv%touch_view_inv & _).
        destruct Hv as (_ & _ & -> & _). by apply (ok_standard _ Hok).
  - intros h p acts e event touch0 Hin Htouch.
    unfold run. rewrite fold_left_app. cbn [fold_left]. fold (run acts (load h p)).
    pose proof (run_registry_ok acts _ (load_registry_ok h p)) as Hok.
    cbn [exec after]. destruct (ok_installed _ Hok e Hin) as [-> _].
    unfold onTouchStart. by rewrite Htouch.
  - intros h p acts Hstd.
    apply (ok_standard _ (run_registry_ok acts _ (load_registry_ok h p))).
    by rewrite run_isIosDevice.
  - exact Hunlock.
Qed.

Lemma initialClientY_sentinel_witness :
  initialClientY
    (vars (run [Lock (JsElem elemA) None;
                ElementTouchStart elemA
                  {| target := elemA;
                     targetTouches := [{| clientY := 100%float |}; {| clientY := 120%float |}];
                     defaultPrevented := false |};
                ElementTouchStart elemB (one_touch elemB 100);
                Unlock (JsElem elemA)] (load phone sample_page)))
    = (-1)%float /\
  initialClientY
    (vars (run ([Lock (JsElem elemA) None; ElementTouchStart elemA (one_touch elemA 100)]
                  ++ UnlockAll :: [Lock (JsElem elemB) None;
                                   ElementTouchStart elemA (one_touch elemA 60)])
             (load phone sample_page))) = (-1)%float /\
  initialClientY
    (vars (run ([Lock (JsElem elemA) None] ++ [ElementTouchStart elemA (one_touch elemA 100)])
             (load phone sample_page))) = 100%float.
Proof.
  destruct initialClientY_sentinel as (Hquiet & Hrecord & _).
  destruct (Hquiet phone sample_page []
              [Lock (JsElem elemA) None;
               ElementTouchStart elemA
                 {| target := elemA;
                    targetTouches := [{| clientY := 100%float |}; {| clientY := 120%float |}];
                    defaultPrevented := false |};
               ElementTouchStart elemB (one_touch elemB 100);
               Unlock (JsElem elemA)]) as [Hload _].
  destruct (Hquiet phone sample_page
              [Lock (JsElem elemA) None; ElementTouchStart elemA (one_touch elemA 100)]
              [Lock (JsElem elemB) None; ElementTouchStart elemA (one_touch elemA 60)])
    as [_ Hreset].
  assert (elemA ∈ allTargetElements
                    (vars (run [Lock (JsElem elemA) None] (load phone sample_page))))
    as Hin by (vm_compute; left).
  split_and!.
  - apply Hload. vm_compute. reflexivity.
  - apply Hreset. vm_compute. reflexivity.
  - exact (Hrecord phone sample_page [Lock (JsElem elemA) None] elemA
             (one_touch elemA 100) {| clientY := 100%float |} Hin eq_refl).
Defined.

(** C9, as stated, fails: on the touch path a target is locked, a single
    touch starts on it at y = 100, and the target is unlocked; no target is
    registered any more and [initialClientY] is 100. *)
Lemma initialClientY_stale_after_unlock :
  let s := run [Lock (JsElem elemA) None;
                ElementTouchStart elemA (one_touch elemA 100);
                Unlock (JsElem elemA)] (load phone sample_page) in
  allTargetElements (vars s) = [] /\
  handlers (vars s) = [] /\
  initialClientY (vars s) = 100%float /\
  PrimFloat.eqb (initialClientY (vars s)) (-1)%float = false.
Proof. by split_and!. Qed.

(** ** Options on the touch path *)

(** C10.  On the touch path [disableBodyScroll] never looks at its options:
    two calls that differ in their options only end in the same state, and
    the call leaves the trailing padding, the other styles and the timer
    queue as they were. *)
Theorem touch_lock_ignores_options (s : State) (t : JsTarget)
    (o1 o2 : option BodyScrollOptions) :
  isIosDevice (vars s) = true ->
  disableBodyScroll t o1 s = disableBodyScroll t o2 s /\
  bodyPaddingRight (doc (after (disableBodyScroll t o1 s))) = bodyPaddingRight (doc s) /\
  overflow_view (after (disableBodyScroll t o1 s)) = overflow_view s /\
  timers (after (disableBodyScroll t o1 s)) = timers s.
Proof.
  intros Hios.
  destruct (standard_view_inv _ _ (disableBodyScroll_touch_standard_view t o1 s Hios))
    as (Hov & Ht & _).
  split_and!; [|by apply overflow_view_inv in Hov as (_ & _ & ? & _)|done|done].
  unfold disableBodyScroll. by rewrite Hios.
Qed.

Lemma touch_lock_ignores_options_witness :
  disableBodyScroll (JsElem elemA) (Some {| reserveScrollBarGap := Some true |})
    (load phone sample_page)
  = disableBodyScroll (JsElem elemA) None (load phone sample_page) /\
  bodyPaddingRight
    (doc (after (disableBodyScroll (JsElem elemA)
                   (Some {| reserveScrollBarGap := Some true |})
                   (load phone sample_page)))) = "4px".
Proof.
  destruct (touch_lock_ignores_options (load phone sample_page) (JsElem elemA)
              (Some {| reserveScrollBarGap := Some true |}) None eq_refl)
    as (H1 & H2 & _).
  exact (conj H1 H2).
Defined.

(** On the touch path the trailing padding stays the page's own, and no
    callback is ever pending. *)
Lemma touch_path_styles_constant h p acts :
  Platform.detect (runtime h) = true ->
  let s := run acts (load h p) in
  bodyPaddingRight (doc s) = page_bodyPaddingRight p /\
  bodyOverflow (doc s) = page_bodyOverflow p /\
  docElOverflow (doc s) = page_docElOverflow p /\
  timers s = [].
Proof.
  intros Hios s. subst s.
  assert (isIosDevice (vars (run acts (load h p))) = true) as Hs
    by by rewrite run_isIosDevice.
  destruct (run_touch_idle acts _ (load_touch_idle h p) Hs) as (Ht & Ho & Hd & Hp).
  destruct (run_styles_ok p acts _ (load_styles_ok h p)) as [Hov Hpad].
  rewrite Ho in Hov. rewrite Hp in Hpad.
  by destruct Hov as (_ & ? & ?).
Qed.

(** * Further facts about the reachable states *)

(** ** The body listeners, exactly *)

Lemma filter_listeners_of_other (h h' : BodyHandler) :
  h' <> h ->
  filter (fun l => listener_handler l <> h) (listeners_of h') = listeners_of h'.
Proof. intros Hne. apply filter_all. intros l Hl.
  apply elem_of_cons in Hl as [->|Hl]; [done|].
  by apply list_elem_of_singleton in Hl as ->.
Qed.

Lemma filter_listeners_of_same (h : BodyHandler) :
  filter (fun l => listener_handler l <> h) (listeners_of h) = [].
Proof.
  unfold listeners_of. rewrite filter_cons_False by (simpl; tauto).
  rewrite filter_cons_False by (simpl; tauto). done.
Qed.

Lemma filter_flat_map_listeners e h (hs : list (Elem * BodyHandler)) :
  (forall k v, (k, v) ∈ hs -> (v = h <-> k = e)) ->
  filter (fun l => listener_handler l <> h) (flat_map (fun kv => listeners_of kv.2) hs)
  = flat_map (fun kv => listeners_of kv.2) (map_delete e hs).
Proof.
  unfold map_delete. induction hs as [|[k v] hs IH]; intros Hkv; [done|].
  cbn [flat_map]. rewrite filter_app, IH by (intros; apply Hkv; by right).
  rewrite filter_cons. cbn [fst snd].
  destruct (decide (k <> e)) as [Hk|Hk].
  - cbn [flat_map snd]. f_equal. apply filter_listeners_of_other.
    intros ->. apply Hk. by apply (Hkv k h); [left|].
  - assert (v = h) as -> by (apply (Hkv k v); [left|]; by destruct (decide (k = e))).
    by rewrite filter_listeners_of_same.
Qed.

Lemma registerTarget_listeners_exact e s :
  registry_ok s -> listeners_exact s -> e ∉ allTargetElements (vars s) ->
  listeners_exact (registerTarget e s).
Proof.
  intros Hok Hex He. unfold listeners_exact. rewrite (registerTarget_eq e s Hok He).
  cbn [doc vars bodyListeners handlers set_handlers].
  by rewrite flat_map_app, <-Hex.
Qed.

Lemma exec_listeners_exact a s :
  registry_ok s -> listeners_exact s -> listeners_exact (after (exec a s)).
Proof.
  intros Hok Hex.
  assert (forall s', touch_view s' = touch_view s -> listeners_exact s') as Hframe.
  { intros s' (_ & Hh & _ & Hl & _)%touch_view_inv. unfold listeners_exact.
    by rewrite Hh, Hl. }
  destruct (isIosDevice (vars s)) eqn:Hios.
  2:{ destruct a as [t o|t| | |e ev|h0].
      - by apply Hframe, (exec_standard_frame (Lock t o) s Hios I).
      - by apply Hframe, (exec_standard_frame (Unlock t) s Hios I).
      - by apply Hframe, (exec_standard_frame UnlockAll s Hios I).
      - by apply Hframe, tick_frame.
      - cbn [exec after]. destruct (ontouchstart (doc s) !! e) as [[]|]; try done.
        unfold onTouchStart. by destruct (targetTouches ev) as [|? []].
      - done. }
  destruct a as [t o|t| | |e ev|h0]; unfold exec; cbn [after].
  - unfold disableBodyScroll. rewrite Hios. cbn [after].
    set (s1 := match t with JsElem e => _ | _ => s end).
    assert (listeners_exact s1) as Hex1.
    { subst s1. destruct t as [| |e]; try done. case_bool_decide as He; [done|].
      by apply registerTarget_listeners_exact. }
    by destruct (negb _).
  - unfold enableBodyScroll. rewrite Hios. destruct t as [| |e].
    + by rewrite release_loop_absent.
    + by rewrite release_loop_absent.
    + destruct (decide (e ∈ allTargetElements (vars s))) as [Hin|Hnin].
      * rewrite (release_loop_in _ _ _ (ok_nodup _ Hok) Hin).
        assert (NoDup (handlers (vars s)).*1) as Hnd
          by (rewrite (ok_keys _ Hok); apply Hok).
        assert (exists h, map_get e (handlers (vars s)) = Some h /\ closure_target h = e)
          as (h & Hget & Hh).
        { rewrite <-(ok_keys _ Hok) in Hin.
          apply list_elem_of_fmap in Hin as ([k h] & -> & Hin).
          exists h. split; [|by apply (ok_closures _ Hok) in Hin as [? _]].
          by apply map_get_unique. }
        rewrite (releaseTarget_hit _ _ _ Hget). unfold listeners_exact.
        cbn [after]. reduce_fields. rewrite Hex.
        apply filter_flat_map_listeners. intros k v Hkv. split.
        -- intros ->. apply (ok_closures _ Hok) in Hkv as [<- _]. done.
        -- intros ->. pose proof (map_get_unique _ _ _ Hnd Hkv). congruence.
      * rewrite (release_loop_notin _ _ _ Hnin). by cbn [after].
  - rewrite (clearAllBodyScrollLocks_touch s Hios). unfold listeners_exact.
    reduce_fields. cbn [after doc vars bodyListeners handlers flat_map].
    destruct (filter _ _) as [|l ls] eqn:Hf; [done|].
    assert (l ∈ l :: ls) as Hl by left. rewrite <-Hf in Hl.
    apply list_elem_of_filter in Hl as [Hn Hin]. exfalso. apply Hn.
    apply (ok_listeners _ Hok) in Hin. apply list_elem_of_fmap. by eexists (_, _).
  - by apply Hframe, tick_frame.
  - destruct (ontouchstart (doc s) !! e) as [[]|]; try done.
    unfold onTouchStart. by destruct (targetTouches ev) as [|? []].
  - done.
Qed.

Lemma run_listeners_exact h p acts : listeners_exact (run acts (load h p)).
Proof.
  assert (forall s, registry_ok s -> listeners_exact s -> listeners_exact (run acts s))
    as Hrun.
  { induction acts as [|a acts IH]; intros s Hok Hex; [done|].
    apply IH; [by apply exec_registry_ok|by apply exec_listeners_exact]. }
  apply Hrun; [apply load_registry_ok|done].
Qed.

(** ** [firstTargetElement] on the touch path *)

Lemma exec_first_registered a s :
  registry_ok s -> first_registered s -> first_registered (after (exec a s)).
Proof.
  intros Hok Hfr Hios'. assert (isIosDevice (vars s) = true) as Hios
    by by rewrite <-(exec_isIosDevice a s).
  specialize (Hfr Hios). clear Hios'.
  assert (forall s', touch_view s' = touch_view s ->
            firstTargetElement (vars s') = firstTargetElement (vars s) ->
            forall e, firstTargetElement (vars s') = JsElem e ->
                      e ∈ allTargetElements (vars s')) as Hframe.
  { intros s' (Ha & _)%touch_view_inv Hf e. rewrite Ha, Hf. apply Hfr. }
  destruct a as [t o|t| | |e ev|h0]; unfold exec; cbn [after].
  - unfold disableBodyScroll. rewrite Hios. cbn [after].
    set (s1 := match t with JsElem e => _ | _ => s end).
    assert (firstTargetElement (vars s1) = firstTargetElement (vars s) /\
            (forall e, e ∈ allTargetElements (vars s) -> e ∈ allTargetElements (vars s1)) /\
            (forall e, t = JsElem e -> e ∈ allTargetElements (vars s1)))
      as (Hf1 & Hsub & Hnew).
    { subst s1. destruct t as [| |e]; try done. case_bool_decide as He.
      - split_and!; [done|done|]. by intros ? [= <-].
      - rewrite (registerTarget_eq e s Hok He). cbn [vars firstTargetElement allTargetElements].
        split_and!; [done| |].
        + intros x Hx. apply elem_of_app. by left.
        + intros ? [= <-]. apply elem_of_app. right. by left. }
    destruct (negb (truthy (firstTargetElement (vars s1)))) eqn:Hneg.
    + reduce_fields. intros e He. by apply Hnew.
    + intros e He. apply Hsub, Hfr. by rewrite <-Hf1.
  - unfold enableBodyScroll. rewrite Hios. destruct t as [| |e].
    + by rewrite release_loop_absent.
    + by rewrite release_loop_absent.
    + destruct (decide (e ∈ allTargetElements (vars s))) as [Hin|Hnin].
      * rewrite (release_loop_in _ _ _ (ok_nodup _ Hok) Hin).
        assert (exists h, map_get e (handlers (vars s)) = Some h) as (h & Hget).
        { rewrite <-(ok_keys _ Hok) in Hin.
          apply list_elem_of_fmap in Hin as ([k h] & -> & Hin).
          exists h. apply map_get_unique; [|done]. rewrite (ok_keys _ Hok). apply Hok. }
        rewrite (releaseTarget_hit _ _ _ Hget). cbn [after]. reduce_fields.
        unfold strict_eq. intros x Hx. case_bool_decide as Heq; [done|].
        apply list_elem_of_filter. split; [congruence|by apply Hfr].
      * rewrite (release_loop_notin _ _ _ Hnin). cbn [after]. reduce_fields.
        intros x Hx. apply list_elem_of_filter. split; [|by apply Hfr].
        intros ->. by apply Hnin, Hfr.
  - rewrite (clearAllBodyScrollLocks_touch s Hios). by cbn [after vars firstTargetElement].
  - destruct (tick_frame s) as (Hv & Hf & _). by apply Hframe.
  - destruct (ontouchstart (doc s) !! e) as [[]|]; try done.
    unfold onTouchStart. by destruct (targetTouches ev) as [|? []].
  - done.
Qed.

Lemma run_first_registered h p acts : first_registered (run acts (load h p)).
Proof.
  assert (forall s, registry_ok s -> first_registered s -> first_registered (run acts s))
    as Hrun.
  { induction acts as [|a acts IH]; intros s Hok Hfr; [done|].
    apply IH; [by apply exec_registry_ok|by apply exec_first_registered]. }
  apply Hrun; [apply load_registry_ok|]. intros _ e. by cbn.
Qed.

(** ** The body-level listeners *)

Lemma bodyDispatch_fold ty s (hs : list (Elem * BodyHandler)) ev :
  (forall k v, (k, v) ∈ hs -> closure_target v = k) ->
  let ev' :=
    fold_left
      (fun ev l =>
         if bool_decide (listener_type l = ty)
         then onBodyTouch (listener_handler l) ev s
         else ev)
      (flat_map (fun kv => listeners_of kv.2) hs) ev in
  target ev' = target ev /\
  targetTouches ev' = targetTouches ev /\
  defaultPrevented ev' =
    defaultPrevented ev
    || existsb (fun e => negb (contains (host s) e (target ev))) hs.*1.
Proof.
  revert ev. induction hs as [|[k v] hs IH]; intros ev Hkv; cbn zeta.
  - cbn. by rewrite orb_false_r.
  - cbn [flat_map fmap list_fmap existsb fst snd]. rewrite fold_left_app.
    assert (closure_target v = k) as Hv by (apply Hkv; left).
    assert (forall k' v', (k', v') ∈ hs -> closure_target v' = k') as Hkv'
      by (intros; apply Hkv; by right).
    set (ev1 := fold_left _ (listeners_of v) ev).
    assert (target ev1 = target ev /\ targetTouches ev1 = targetTouches ev /\
            defaultPrevented ev1 =
              defaultPrevented ev || negb (contains (host s) k (target ev)))
      as (Ht & Htt & Hd).
    { subst ev1. unfold listeners_of. cbn [fold_left listener_type listener_handler].
      destruct ty; repeat case_bool_decide; try done;
        rewrite onBodyTouch_spec, Hv, orb_comm; unfold onBodyTouch;
        by destruct (contains _ _ _). }
    destruct (IH ev1 Hkv') as (-> & -> & ->). rewrite Ht, Htt, Hd.
    by rewrite orb_assoc.
Qed.

(** ** [enableBodyScroll] on the touch path, field by field *)

Lemma filter_iff_on {A} (P Q : A -> Prop)
    `{!forall x, Decision (P x), !forall x, Decision (Q x)} (l : list A) :
  (forall x, x ∈ l -> P x <-> Q x) -> filter P l = filter Q l.
Proof.
  induction l as [|x l IH]; intros Hpq; [done|].
  assert (filter P l = filter Q l) as Hl by (apply IH; intros; apply Hpq; by right).
  destruct (decide (P x)) as [Hp|Hp].
  - rewrite !filter_cons_True; [by rewrite Hl| |done]. apply Hpq; [left|done].
  - rewrite !filter_cons_False; [done| |done]. intros Hq. apply Hp, Hpq; [left|done].
Qed.

Lemma filter_listeners_by_target e h s :
  registry_ok s -> map_get e (handlers (vars s)) = Some h -> closure_target h = e ->
  filter (fun l => listener_handler l <> h) (bodyListeners (doc s)) =
  filter (fun l => closure_target (listener_handler l) <> e) (bodyListeners (doc s)).
Proof.
  intros Hok Hget Hh. apply filter_iff_on. intros l Hl.
  apply (ok_listeners _ Hok) in Hl.
  assert (NoDup (handlers (vars s)).*1) as Hnd by (rewrite (ok_keys _ Hok); apply Hok).
  pose proof (map_get_unique _ _ _ Hnd Hl) as Hget'. split.
  - intros Hne Heq. apply Hne. rewrite Heq in Hget'. congruence.
  - intros Hne Heq. apply Hne. by rewrite Heq.
Qed.

Lemma enableBodyScroll_touch_fields e s :
  registry_ok s -> isIosDevice (vars s) = true ->
  exists s',
    enableBodyScroll (JsElem e) s = Returns s' /\
    allTargetElements (vars s') = filter (fun x => x <> e) (allTargetElements (vars s)) /\
    handlers (vars s') = map_delete e (handlers (vars s)) /\
    bodyListeners (doc s') =
      filter (fun l => closure_target (listener_handler l) <> e) (bodyListeners (doc s)) /\
    ontouchstart (doc s') = delete e (ontouchstart (doc s)) /\
    ontouchmove (doc s') = delete e (ontouchmove (doc s)) /\
    firstTargetElement (vars s') =
      (if bool_decide (e ∈ allTargetElements (vars s))
          && strict_eq (JsElem e) (firstTargetElement (vars s))
       then JsNull else firstTargetElement (vars s)) /\
    initialClientY (vars s') = initialClientY (vars s) /\
    closures s' = closures s /\
    standard_view s' = standard_view s.
Proof.
  intros Hok Hios.
  pose proof (enableBodyScroll_touch_standard_view (JsElem e) s Hios) as Hstd.
  revert Hstd. unfold enableBodyScroll. rewrite Hios. cbn [after]. intros Hstd.
  eexists. split; [reflexivity|]. revert Hstd.
  destruct (decide (e ∈ allTargetElements (vars s))) as [Hin|Hnin].
  - rewrite (release_loop_in _ _ _ (ok_nodup _ Hok) Hin).
    assert (exists h, map_get e (handlers (vars s)) = Some h /\ closure_target h = e)
      as (h & Hget & Hh).
    { pose proof Hin as Hin'. rewrite <-(ok_keys _ Hok) in Hin'.
      apply list_elem_of_fmap in Hin' as ([k h] & -> & Hin').
      exists h. split; [|by apply (ok_closures _ Hok) in Hin' as [? _]].
      apply map_get_unique; [|done]. rewrite (ok_keys _ Hok). apply Hok. }
    rewrite (releaseTarget_hit _ _ _ Hget). reduce_fields. intros Hstd.
    rewrite bool_decide_eq_true_2 by done.
    rewrite (filter_listeners_by_target e h s Hok Hget Hh). by split_and!.
  - rewrite (release_loop_notin _ _ _ Hnin). reduce_fields. intros Hstd.
    rewrite bool_decide_eq_false_2 by done. cbn [andb].
    split_and!; try done.
    + symmetry. apply map_delete_notin. by rewrite (ok_keys _ Hok).
    + symmetry. apply filter_all. intros l Hl Heq.
      apply (ok_listeners _ Hok) in Hl. apply Hnin. rewrite <-(ok_keys _ Hok), <-Heq.
      apply list_elem_of_fmap. eexists (_, _). split; [|exact Hl]. done.
Qed.

(** * Further properties of the code *)

(** X1.  In every state the module reaches, on either path, its
    bookkeeping is coherent: the keys of [handlers] are the registered
    targets in the order of their registration, every handler is the
    closure made for its key, [document.body] carries exactly the
    touchstart and the touchmove listener of each handler and nothing
    else of the module (so two listeners per registered target), and an
    element carries the module's [ontouchstart] and [ontouchmove] closures
    exactly when it is registered. *)
Theorem registry_coherent h p acts :
  let s := run acts (load h p) in
  (handlers (vars s)).*1 = allTargetElements (vars s) /\
  (forall k v, (k, v) ∈ handlers (vars s) -> closure_target v = k) /\
  bodyListeners (doc s) = flat_map (fun kv => listeners_of kv.2) (handlers (vars s)) /\
  length (bodyListeners (doc s)) = 2 * length (allTargetElements (vars s)) /\
  (forall e, e ∈ allTargetElements (vars s) <->
             ontouchstart (doc s) !! e = Some (TouchStartCb e)) /\
  (forall e, e ∈ allTargetElements (vars s) <->
             ontouchmove (doc s) !! e = Some (TouchMoveCb e)).
Proof.
  intros s. subst s.
  pose proof (run_registry_ok acts _ (load_registry_ok h p)) as Hok.
  pose proof (run_listeners_exact h p acts) as Hex. unfold listeners_exact in Hex.
  split_and!.
  - apply Hok.
  - intros k v Hkv. by apply (ok_closures _ Hok) in Hkv as [? _].
  - exact Hex.
  - rewrite Hex, <-(ok_keys _ Hok), length_fmap. clear Hex Hok.
    induction (handlers _) as [|kv hs IH]; [done|].
    cbn [flat_map]. rewrite length_app, IH. unfold listeners_of. simpl. lia.
  - intros e. split; [by intros [? _]%(ok_installed _ Hok)|].
    intros [[n [=]]|[_ ?]]%(ok_start _ Hok). done.
  - intros e. split; [by intros [_ ?]%(ok_installed _ Hok)|].
    intros [[n [=]]|[_ ?]]%(ok_move _ Hok). done.
Qed.

(** X2.  In every reachable state, delivering a touchstart or touchmove
    event to [document.body] leaves the event's target and touches alone,
    and the body listeners prevent the event's default exactly when some
    registered target does not contain the event's target (a default
    already prevented stays prevented). *)
Theorem body_listeners_prevent_outside_a_target h p acts ty event :
  let s := run acts (load h p) in
  target (bodyDispatch ty event s) = target event /\
  targetTouches (bodyDispatch ty event s) = targetTouches event /\
  defaultPrevented (bodyDispatch ty event s) =
    defaultPrevented event
    || existsb (fun e => negb (contains (host s) e (target event)))
         (allTargetElements (vars s)).
Proof.
  intros s. subst s.
  pose proof (run_registry_ok acts _ (load_registry_ok h p)) as Hok.
  pose proof (run_listeners_exact h p acts) as Hex. unfold listeners_exact in Hex.
  unfold bodyDispatch. rewrite Hex, <-(ok_keys _ Hok).
  apply bodyDispatch_fold. intros k v Hkv.
  by apply (ok_closures _ Hok) in Hkv as [? _].
Qed.

(** X3.  On the touch path [firstTargetElement] is, in every reachable
    state, either unset or one of the registered targets: an unlock of the
    element it names clears it in the same call. *)
Theorem firstTargetElement_is_registered h p acts e :
  Platform.detect (runtime h) = true ->
  firstTargetElement (vars (run acts (load h p))) = JsElem e ->
  e ∈ allTargetElements (vars (run acts (load h p))).
Proof.
  intros Hios. apply (run_first_registered h p acts). by rewrite run_isIosDevice.
Qed.

Lemma firstTargetElement_is_registered_witness :
  elemA ∈ allTargetElements
            (vars (run [Lock (JsElem elemA) None; Lock (JsElem elemB) None;
                        Unlock (JsElem elemB)]
                     (load phone sample_page))).
Proof.
  exact (firstTargetElement_is_registered phone sample_page
           [Lock (JsElem elemA) None; Lock (JsElem elemB) None; Unlock (JsElem elemB)]
           elemA ltac:(vm_compute; reflexivity) ltac:(vm_compute; reflexivity)).
Defined.

(** ** [disableBodyScroll] of a new target on the touch path, field by field *)

Lemma disableBodyScroll_touch_fresh_fields e o s :
  registry_ok s -> isIosDevice (vars s) = true -> e ∉ allTargetElements (vars s) ->
  let h := {| closure_id := closures s; closure_target := e |} in
  exists s',
    disableBodyScroll (JsElem e) o s = Returns s' /\
    allTargetElements (vars s') = (allTargetElements (vars s) ++ [e])%list /\
    handlers (vars s') = (handlers (vars s) ++ [(e, h)])%list /\
    bodyListeners (doc s') = (bodyListeners (doc s) ++ listeners_of h)%list /\
    ontouchstart (doc s') = <[e := TouchStartCb e]> (ontouchstart (doc s)) /\
    ontouchmove (doc s') = <[e := TouchMoveCb e]> (ontouchmove (doc s)) /\
    firstTargetElement (vars s') =
      (if truthy (firstTargetElement (vars s)) then firstTargetElement (vars s)
       else JsElem e) /\
    initialClientY (vars s') = initialClientY (vars s) /\
    closures s' = S (closures s) /\
    standard_view s' = standard_view s.
Proof.
  intros Hok Hios He h.
  pose proof (disableBodyScroll_touch_standard_view (JsElem e) o s Hios) as Hstd.
  revert Hstd. unfold disableBodyScroll. rewrite Hios. cbn [after truthy andb].
  rewrite bool_decide_eq_false_2 by done. cbn [negb].
  rewrite (registerTarget_eq e s Hok He). reduce_fields.
  destruct (truthy (firstTargetElement (vars s))); cbn [negb]; intros Hstd;
    (eexists; split; [reflexivity|]); reduce_fields; by split_and!.
Qed.

Lemma map_get_delete_ne k k' (m : list (Elem * BodyHandler)) :
  k <> k' -> map_get k' (map_delete k m) = map_get k' m.
Proof.
  intros Hne. unfold map_delete. induction m as [|[x v] m IH]; [done|].
  rewrite filter_cons. cbn [fst]. destruct (decide (x <> k)) as [Hx|Hx].
  - cbn [map_get]. by rewrite IH.
  - assert (x = k) as -> by (by destruct (decide (x = k))).
    cbn [map_get]. by rewrite decide_False.
Qed.

(** X4.  On the touch path, locking an element that is not registered and
    unlocking it again puts the registry back: the registered targets, the
    handlers and the body listeners are what they were, as are
    [initialClientY], the styles and the timer queue.  What the round trip
    leaves behind: both touch callbacks of the element are null, whatever
    the page had put there; [firstTargetElement] is null if it was unset
    before; and one closure more has been created. *)
Theorem touch_lock_unlock_round_trip h p acts e o :
  Platform.detect (runtime h) = true ->
  e ∉ allTargetElements (vars (run acts (load h p))) ->
  let s := run acts (load h p) in
  let s' := after (enableBodyScroll (JsElem e) (after (disableBodyScroll (JsElem e) o s))) in
  allTargetElements (vars s') = allTargetElements (vars s) /\
  handlers (vars s') = handlers (vars s) /\
  bodyListeners (doc s') = bodyListeners (doc s) /\
  ontouchstart (doc s') = delete e (ontouchstart (doc s)) /\
  ontouchmove (doc s') = delete e (ontouchmove (doc s)) /\
  firstTargetElement (vars s') =
    (if truthy (firstTargetElement (vars s)) then firstTargetElement (vars s)
     else JsNull) /\
  initialClientY (vars s') = initialClientY (vars s) /\
  closures s' = S (closures s) /\
  standard_view s' = standard_view s.
Proof.
  intros Hdet He s s'. subst s s'. set (s := run acts (load h p)) in *.
  assert (isIosDevice (vars s) = true) as Hios by (subst s; by rewrite run_isIosDevice).
  assert (registry_ok s) as Hok by apply run_registry_ok, load_registry_ok.
  pose proof (run_first_registered h p acts Hios) as Hfirst. fold s in Hfirst.
  destruct (disableBodyScroll_touch_fresh_fields e o s Hok Hios He)
    as (s1 & Hlock & Ha1 & Hh1 & Hl1 & Hs1 & Hm1 & Hf1 & Hy1 & Hc1 & Hv1).
  pose proof (disableBodyScroll_registry_ok (JsElem e) o s Hok) as Hok1.
  rewrite Hlock in Hok1 |- *. cbn [after] in Hok1 |- *.
  assert (isIosDevice (vars s1) = true) as Hios1.
  { apply standard_view_inv in Hv1 as (_ & _ & _ & ->). done. }
  destruct (enableBodyScroll_touch_fields e s1 Hok1 Hios1)
    as (s2 & -> & Ha2 & Hh2 & Hl2 & Hs2 & Hm2 & Hf2 & Hy2 & Hc2 & Hv2).
  cbn [after].
  rewrite Ha2, Hh2, Hl2, Hs2, Hm2, Hf2, Hy2, Hc2, Hv2,
          Ha1, Hh1, Hl1, Hs1, Hm1, Hf1, Hy1, Hc1, Hv1.
  split_and!; try done.
  - rewrite filter_app, filter_ne_notin by done.
    rewrite filter_cons_False by (intros Hne; by apply Hne). apply app_nil_r.
  - unfold map_delete. rewrite filter_app.
    rewrite filter_cons_False by (intros Hne; by apply Hne).
    rewrite filter_nil, app_nil_r. apply map_delete_notin. by rewrite (ok_keys _ Hok).
  - rewrite filter_app. unfold listeners_of.
    rewrite !filter_cons_False by (intros Hne; by apply Hne).
    rewrite filter_nil, app_nil_r. apply filter_all. intros l Hl Heq.
    apply (ok_listeners _ Hok) in Hl. apply He. rewrite <-(ok_keys _ Hok), <-Heq.
    apply list_elem_of_fmap. eexists (_, _). split; [|exact Hl]. done.
  - apply delete_insert_eq.
  - apply delete_insert_eq.
  - rewrite bool_decide_eq_true_2 by (apply elem_of_app; right; left). cbn [andb].
    unfold strict_eq. destruct (firstTargetElement (vars s)) as [| |e0] eqn:Hf0;
      cbn [truthy]; try by rewrite bool_decide_eq_true_2.
    rewrite bool_decide_eq_false_2; [done|]. intros [= ->].
    by apply He, Hfirst.
Qed.

Lemma touch_lock_unlock_round_trip_witness :
  let s := run [Lock (JsElem elemA) None] (load phone busy_page) in
  let s' := after (enableBodyScroll (JsElem elemB)
                     (after (disableBodyScroll (JsElem elemB) reserve s))) in
  allTargetElements (vars s') = allTargetElements (vars s) /\
  ontouchstart (doc s') = delete elemB (ontouchstart (doc s)).
Proof.
  intros s s'.
  assert (allTargetElements (vars (run [Lock (JsElem elemA) None] (load phone busy_page)))
          = [elemA]) as Hall by (vm_compute; reflexivity).
  assert (elemB ∉ allTargetElements
                    (vars (run [Lock (JsElem elemA) None] (load phone busy_page))))
    as Hnin by (rewrite Hall; by intros [=]%list_elem_of_singleton).
  destruct (touch_lock_unlock_round_trip phone busy_page [Lock (JsElem elemA) None]
              elemB reserve ltac:(vm_compute; reflexivity) Hnin)
    as (Ha & _ & _ & Hs & _).
  split; [exact Ha|exact Hs].
Defined.

(** X5.  Unlocking one target leaves every other registered target locked:
    whatever the argument of [enableBodyScroll] (another element, registered
    or not, or no element at all, when the call throws), an element that was
    registered and is not the argument is still registered afterwards, with
    the same handler, its body listeners in place and the module's two
    callbacks on it. *)
Theorem unlock_keeps_other_targets h p acts t e :
  e ∈ allTargetElements (vars (run acts (load h p))) ->
  t <> JsElem e ->
  let s := run acts (load h p) in
  let s' := after (enableBodyScroll t s) in
  e ∈ allTargetElements (vars s') /\
  map_get e (handlers (vars s')) = map_get e (handlers (vars s)) /\
  is_Some (map_get e (handlers (vars s'))) /\
  (forall l, l ∈ bodyListeners (doc s) -> closure_target (listener_handler l) = e ->
             l ∈ bodyListeners (doc s')) /\
  ontouchstart (doc s') !! e = Some (TouchStartCb e) /\
  ontouchmove (doc s') !! e = Some (TouchMoveCb e).
Proof.
  intros He Ht s s'. subst s s'. set (s := run acts (load h p)) in *.
  assert (registry_ok s) as Hok by apply run_registry_ok, load_registry_ok.
  assert (is_Some (map_get e (handlers (vars s)))) as Hsome.
  { pose proof He as He'. rewrite <-(ok_keys _ Hok) in He'.
    apply list_elem_of_fmap in He' as ([k v] & -> & Hkv). exists v.
    apply map_get_unique; [|done]. rewrite (ok_keys _ Hok). apply Hok. }
  destruct (ok_installed _ Hok e He) as [Hstart Hmove].
  destruct (isIosDevice (vars s)) eqn:Hios.
  2:{ destruct (ok_standard _ Hok Hios) as [Hnil _]. rewrite Hnil in He.
      by apply elem_of_nil in He. }
  destruct t as [| |e0].
  1,2: unfold enableBodyScroll; rewrite Hios, release_loop_absent by done;
       cbn [after]; by split_and!.
  assert (e <> e0) as Hne by congruence.
  destruct (enableBodyScroll_touch_fields e0 s Hok Hios)
    as (s2 & -> & Ha2 & Hh2 & Hl2 & Hs2 & Hm2 & _).
  cbn [after]. rewrite Ha2, Hh2, Hl2, Hs2, Hm2.
  rewrite map_get_delete_ne by done. split_and!; try done.
  - by apply list_elem_of_filter.
  - intros l Hl Hle. apply list_elem_of_filter. split; [congruence|done].
  - by rewrite lookup_delete_ne.
  - by rewrite lookup_delete_ne.
Qed.

Lemma unlock_keeps_other_targets_witness :
  let s := run [Lock (JsElem elemA) None; Lock (JsElem elemB) None]
             (load phone sample_page) in
  elemB ∈ allTargetElements (vars (after (enableBodyScroll (JsElem elemA) s))) /\
  ontouchmove (doc (after (enableBodyScroll (JsElem elemA) s))) !! elemB
    = Some (TouchMoveCb elemB).
Proof.
  intros s.
  assert (elemB ∈ allTargetElements (vars s)) as Hin by (vm_compute; right; left).
  destruct (unlock_keeps_other_targets phone sample_page
              [Lock (JsElem elemA) None; Lock (JsElem elemB) None]
              (JsElem elemA) elemB Hin ltac:(discriminate))
    as (H1 & _ & _ & _ & _ & H2).
  split; [exact H1|exact H2].
Defined.

Lemma restore_idempotent s :
  restoreOverflowCallback (restoreOverflowCallback s) = restoreOverflowCallback s.
Proof.
  unfold restoreOverflowCallback.
  destruct (previousBodyPaddingRight (vars s)) eqn:Hpad;
    destruct (previousBodyOverflowSetting (vars s)) eqn:Hov;
    reduce_fields; rewrite ?Hpad, ?Hov; reduce_fields;
    try destruct (previousDocumentElementOverflowSetting (vars s)) eqn:Hdoc;
    reduce_fields; rewrite ?Hpad, ?Hov; reduce_fields; rewrite ?Hpad, ?Hov; done.
Qed.

(** X6.  Unlocking the same element twice is unlocking it once: in every
    reachable state, on either path, the second [enableBodyScroll] of an
    element returns normally and leaves the whole state (document, module
    variables, timer queue) as the first call left it. *)
Theorem unlock_twice_is_unlock_once h p acts e :
  let s := run acts (load h p) in
  let once := after (enableBodyScroll (JsElem e) s) in
  enableBodyScroll (JsElem e) once = Returns once.
Proof.
  intros s once. subst s once. set (s := run acts (load h p)).
  assert (registry_ok s) as Hok by apply run_registry_ok, load_registry_ok.
  destruct (isIosDevice (vars s)) eqn:Hios.
  - destruct (enableBodyScroll_touch_fields e s Hok Hios)
      as (s1 & Hcall & Ha1 & Hh1 & Hl1 & Hs1 & Hm1 & Hf1 & Hy1 & Hc1 & Hv1).
    pose proof (enableBodyScroll_registry_ok (JsElem e) s Hok Hios) as Hok1.
    rewrite Hcall in Hok1 |- *. cbn [after] in Hok1 |- *.
    assert (isIosDevice (vars s1) = true) as Hios1.
    { apply standard_view_inv in Hv1 as (_ & _ & _ & ->). done. }
    destruct (enableBodyScroll_touch_fields e s1 Hok1 Hios1)
      as (s2 & -> & Ha2 & Hh2 & Hl2 & Hs2 & Hm2 & Hf2 & Hy2 & Hc2 & Hv2).
    f_equal.
    assert (e ∉ allTargetElements (vars s1)) as Hnin.
    { rewrite Ha1. intros [Hne _]%list_elem_of_filter. by apply Hne. }
    apply standard_view_inv in Hv2 as (Hov & Ht & Hh & Hi).
    apply overflow_view_inv in Hov as (H1 & H2 & H3 & H4 & H5 & H6).
    apply State_ext; [done|apply Doc_ext|apply Vars_ext|done|done]; try done.
    + rewrite Hl2. apply filter_all. intros l Hl Heq.
      apply (ok_listeners _ Hok1) in Hl. apply Hnin. rewrite <-(ok_keys _ Hok1), <-Heq.
      apply list_elem_of_fmap. eexists (_, _). split; [|exact Hl]. done.
    + rewrite Hs2. apply delete_id. rewrite Hs1. apply lookup_delete_eq.
    + rewrite Hm2. apply delete_id. rewrite Hm1. apply lookup_delete_eq.
    + rewrite Hf2. by rewrite bool_decide_eq_false_2.
    + rewrite Ha2. by apply filter_ne_notin.
    + rewrite Hh2. apply map_delete_notin. by rewrite (ok_keys _ Hok1).
  - assert (enableBodyScroll (JsElem e) s =
            if strict_eq (firstTargetElement (vars s)) (JsElem e)
            then Returns (with_vars (set_firstTargetElement JsNull)
                            (restoreOverflowSetting s))
            else Returns s) as ->
      by (unfold enableBodyScroll; by rewrite Hios).
    unfold strict_eq. case_bool_decide as Heq; cbn [after]; unfold enableBodyScroll.
    + unfold restoreOverflowSetting. reduce_fields. rewrite Hios.
      unfold strict_eq. by rewrite bool_decide_eq_false_2.
    + rewrite Hios. unfold strict_eq. by rewrite bool_decide_eq_false_2.
Qed.

Lemma clearAllBodyScrollLocks_standard s :
  isIosDevice (vars s) = false ->
  clearAllBodyScrollLocks s =
  Returns (with_vars (set_firstTargetElement JsNull) (setTimeout RestoreOverflow s)).
Proof. intros Hios. unfold clearAllBodyScrollLocks. by rewrite Hios. Qed.

(** X7.  [clearAllBodyScrollLocks] twice is [clearAllBodyScrollLocks]
    once, in any state: the second call leaves the document and the module
    variables as the first left them, and once the pending callbacks have
    run the two states are equal (on the standard path the second call
    queues one more restoring callback, which finds nothing to restore). *)
Theorem unlockAll_twice_is_unlockAll_once s :
  let once := after (clearAllBodyScrollLocks s) in
  let twice := after (clearAllBodyScrollLocks once) in
  doc twice = doc once /\ vars twice = vars once /\
  closures twice = closures once /\ host twice = host once /\
  settle twice = settle once.
Proof.
  intros once twice. subst once twice.
  destruct (isIosDevice (vars s)) eqn:Hios.
  - assert (after (clearAllBodyScrollLocks (after (clearAllBodyScrollLocks s)))
            = after (clearAllBodyScrollLocks s)) as ->; [|done].
    rewrite (clearAllBodyScrollLocks_touch s Hios). cbn [after].
    rewrite clearAllBodyScrollLocks_touch by done. cbn [after]. reduce_fields.
    apply State_ext; [|apply Doc_ext|apply Vars_ext| |]; reduce_fields; try done.
    apply filter_all. intros l _ []%elem_of_nil.
  - rewrite (clearAllBodyScrollLocks_standard s Hios). cbn [after].
    rewrite clearAllBodyScrollLocks_standard by done. cbn [after]. reduce_fields.
    split_and!; try done.
    repeat (rewrite settle_set_first || rewrite (settle_setTimeout RestoreOverflow)).
    rewrite !(run_task_set_first RestoreOverflow). cbn [run_task].
    by rewrite restore_idempotent, set_first_twice.
Qed.

(** X8.  The [ontouchmove] callback of an element never throws, in any
    reachable state and for any event: [handleScroll] reads
    [event.targetTouches[0]] and so throws on an event without touches,
    but the closure calls it for events with exactly one touch only.  The
    callback never changes the event's target or touches and never
    un-prevents a default; and it leaves the event as it is when the event
    has no touch or several touches (a pinch), or when the element is not
    registered. *)
Theorem touchmove_never_throws h p acts e event :
  let s := run acts (load h p) in
  (forall t, handleScroll event t s = None <-> targetTouches event = []) /\
  exists event',
    elementTouchMove e event s = Some event' /\
    target event' = target event /\
    targetTouches event' = targetTouches event /\
    (defaultPrevented event = true -> defaultPrevented event' = true) /\
    (length (targetTouches event) <> 1 \/ e ∉ allTargetElements (vars s) ->
     event' = event).
Proof.
  intros s. subst s. set (s := run acts (load h p)).
  assert (registry_ok s) as Hok by apply run_registry_ok, load_registry_ok.
  assert (forall t, handleScroll event t s = None <-> targetTouches event = []) as Hhs.
  { intros t. unfold handleScroll. destruct (targetTouches event) as [|t0 ts]; [done|].
    split; [|done]. by repeat destruct (_ && _). }
  split; [exact Hhs|].
  unfold elementTouchMove.
  destruct (ontouchmove (doc s) !! e) as [cb|] eqn:Hcb; [|by eexists].
  destruct (ok_move _ Hok e cb Hcb) as [[n ->]|[-> Hin]]; [by eexists|].
  unfold onTouchMove.
  destruct (targetTouches event) as [|t0 [|t1 ts]] eqn:Htt; [by eexists| |by eexists].
  unfold handleScroll. rewrite Htt. cbv zeta. unfold preventDefault.
  repeat destruct (_ && _); cbn [fmap option_fmap option_map snd];
    (eexists; split; [reflexivity|]);
    cbn [target targetTouches defaultPrevented];
    (split_and!; [done|done|done|]); intros [Hlen|Hnin]; done.
Qed.

(** X9.  In every reachable state, delivering a touchstart event to an
    element changes the module's state only if the element is registered
    and the event has exactly one touch; then it stores that touch's
    [clientY] in [initialClientY] and changes nothing else.  A callback the
    page itself had put on an element is not the module's and has no
    effect on it. *)
Theorem touchstart_records_single_touch h p acts e event :
  let s := run acts (load h p) in
  after (exec (ElementTouchStart e event) s) =
  if bool_decide (e ∈ allTargetElements (vars s)) then
    match targetTouches event with
    | [touch0] => with_vars (set_initialClientY (clientY touch0)) s
    | _ => s
    end
  else s.
Proof.
  intros s. subst s. set (s := run acts (load h p)).
  assert (registry_ok s) as Hok by apply run_registry_ok, load_registry_ok.
  cbn [exec after]. case_bool_decide as Hin.
  - destruct (ok_installed _ Hok e Hin) as [-> _]. done.
  - destruct (ontouchstart (doc s) !! e) as [cb|] eqn:Hcb; [|done].
    by destruct (ok_start _ Hok e cb Hcb) as [[n ->]|[-> ?]].
Qed.

(** X10.  Restoring undoes hiding.  When nothing is saved, the callback of
    [restoreOverflowSetting] run after the callback of [setOverflowHidden]
    gives back the very state the latter started from, whatever the
    options and the scroll bar gap.  So on the standard path, with no
    callback pending and [firstTargetElement] unset, a lock of an element
    followed by its unlock leaves, once their callbacks have run, the
    state as it was, with [firstTargetElement] null. *)
Theorem restore_undoes_hide o s :
  previousBodyOverflowSetting (vars s) = None ->
  previousDocumentElementOverflowSetting (vars s) = None ->
  previousBodyPaddingRight (vars s) = None ->
  restoreOverflowCallback (hideOverflowCallback o s) = s /\
  (forall t,
     isIosDevice (vars s) = false -> timers s = [] ->
     truthy (firstTargetElement (vars s)) = false -> truthy t = true ->
     settle (after (enableBodyScroll t (after (disableBodyScroll t o s))))
     = with_vars (set_firstTargetElement JsNull) s).
Proof.
  intros Hov Hdoc Hpad.
  assert (restoreOverflowCallback (hideOverflowCallback o s) = s) as Hround.
  { unfold hideOverflowCallback, restoreOverflowCallback. rewrite Hpad.
    destruct (reserve_requested o && _); reduce_fields; rewrite Hov; reduce_fields;
      state_eq; by rewrite ?Hov, ?Hdoc, ?Hpad. }
  split; [exact Hround|].
  intros t Hstd Htimers Hfirst Ht.
  assert (isIosDevice (vars (after (exec (Lock t o) s))) = false) as Hstd1
    by by rewrite exec_isIosDevice.
  pose proof (settle_exec_standard (Unlock t) _ Hstd1 eq_refl) as Hunlock.
  rewrite (settle_exec_standard (Lock t o) s Hstd eq_refl) in Hunlock.
  rewrite (settle_idle s Htimers) in Hunlock.
  cbn [exec] in Hunlock. rewrite Hunlock. clear Hunlock.
  unfold settled_exec. rewrite hide_first, Hfirst. cbn [negb]. reduce_fields.
  unfold strict_eq. rewrite bool_decide_eq_true_2 by done.
  rewrite (run_task_set_first RestoreOverflow). cbn [run_task]. rewrite Hround.
  state_eq.
Qed.

Lemma restore_undoes_hide_witness :
  restoreOverflowCallback (hideOverflowCallback reserve (load desktop sample_page))
  = load desktop sample_page /\
  settle (after (enableBodyScroll (JsElem elemA)
                   (after (disableBodyScroll (JsElem elemA) reserve
                             (load desktop sample_page)))))
  = with_vars (set_firstTargetElement JsNull) (load desktop sample_page).
Proof.
  destruct (restore_undoes_hide reserve (load desktop sample_page)
              eq_refl eq_refl eq_refl) as [Hcallbacks Hcalls].
  split; [exact Hcallbacks|].
  exact (Hcalls (JsElem elemA) eq_refl eq_refl eq_refl eq_refl).
Defined.

(** X11.  On the standard path the time at which the deferred callbacks
    run is not observable once they have all run: two traces with the same
    calls of the three exports, in the same order, and scheduler turns
    placed anywhere between them, end in the same state after the pending
    callbacks have run. *)
Theorem scheduler_turns_unobservable s acts1 acts2 :
  isIosDevice (vars s) = false ->
  Forall (fun a => is_call a = true \/ a = Tick) acts1 ->
  Forall (fun a => is_call a = true \/ a = Tick) acts2 ->
  calls acts1 = calls acts2 ->
  settle (run acts1 s) = settle (run acts2 s).
Proof.
  intros Hstd H1 H2 Hcalls.
  by rewrite (settle_run_standard acts1 s Hstd H1),
             (settle_run_standard acts2 s Hstd H2), Hcalls.
Qed.

Lemma scheduler_turns_unobservable_witness :
  settle (run [Lock (JsElem elemA) reserve; Tick; Unlock (JsElem elemA)]
            (load desktop sample_page))
  = settle (run [Tick; Lock (JsElem elemA) reserve; Unlock (JsElem elemA); Tick; Tick]
              (load desktop sample_page)).
Proof.
  apply scheduler_turns_unobservable.
  - reflexivity.
  - repeat (apply List.Forall_cons; [(left; reflexivity) || (right; reflexivity)|]).
    apply List.Forall_nil.
  - repeat (apply List.Forall_cons; [(left; reflexivity) || (right; reflexivity)|]).
    apply List.Forall_nil.
  - reflexivity.
Defined.

(** X12.  A module loaded on the standard path never uses the touch-path
    machinery: in every reachable state no target, handler or body listener
    is registered, no closure has been created, [initialClientY] is -1, and
    the touch callbacks of every element are the ones the page had at load,
    untouched by any lock or unlock. *)
Theorem standard_path_registers_nothing h p acts :
  Platform.detect (runtime h) = false ->
  let s := run acts (load h p) in
  allTargetElements (vars s) = [] /\
  handlers (vars s) = [] /\
  bodyListeners (doc s) = [] /\
  ontouchstart (doc s) = Foreign <$> page_ontouchstart p /\
  ontouchmove (doc s) = Foreign <$> page_ontouchmove p /\
  initialClientY (vars s) = (-1)%float /\
  closures s = 0.
Proof.
  intros Hdet s. subst s.
  assert (forall s, registry_ok s -> isIosDevice (vars s) = false ->
                    touch_view (run acts s) = touch_view s) as Hrun.
  { induction acts as [|a acts IH]; intros s Hok Hstd; [done|].
    change (run (a :: acts) s) with (run acts (after (exec a s))).
    rewrite IH; [|by apply exec_registry_ok|by rewrite exec_isIosDevice].
    destruct a as [t o|t| | |e ev|h0].
    - by destruct (exec_standard_frame (Lock t o) s Hstd I) as [-> _].
    - by destruct (exec_standard_frame (Unlock t) s Hstd I) as [-> _].
    - by destruct (exec_standard_frame UnlockAll s Hstd I) as [-> _].
    - cbn [exec after]. by destruct (tick_frame s) as [-> _].
    - cbn [exec after]. destruct (ontouchstart (doc s) !! e) as [cb|] eqn:Hcb; [|done].
      destruct (ok_start _ Hok e cb Hcb) as [[n ->]|[-> Hin]]; [done|].
      destruct (ok_standard _ Hok Hstd) as [Hnil _]. rewrite Hnil in Hin.
      by apply elem_of_nil in Hin.
    - done. }
  specialize (Hrun (load h p) (load_registry_ok h p) Hdet).
  apply touch_view_inv in Hrun as (-> & -> & -> & -> & -> & -> & ->). done.
Qed.

Lemma standard_path_registers_nothing_witness :
  let s := run [Lock (JsElem elemB) None; Tick;
                ElementTouchStart elemB (one_touch elemB 40); Unlock (JsElem elemB)]
             (load desktop busy_page) in
  bodyListeners (doc s) = [] /\
  ontouchstart (doc s) = Foreign <$> page_ontouchstart busy_page.
Proof.
  intros s.
  destruct (standard_path_registers_nothing desktop busy_page
              [Lock (JsElem elemB) None; Tick;
               ElementTouchStart elemB (one_touch elemB 40); Unlock (JsElem elemB)]
              eq_refl) as (_ & _ & Hl & Hs & _).
  split; [exact Hl|exact Hs].
Defined.

(** X13.  On the touch path [enableBodyScroll] called without an element
    ([null] or [undefined]) throws: its loop over the registered targets
    matches none of them, and the write [targetElement.ontouchstart = null]
    that follows is not guarded.  The state is left exactly as it was, so
    later calls go on as if the call had not been made. *)
Theorem unlock_without_element_throws_on_touch_path s t :
  isIosDevice (vars s) = true -> truthy t = false ->
  enableBodyScroll t s = Throws s /\
  forall acts, run (Unlock t :: acts) s = run acts s.
Proof.
  intros Hios Ht.
  assert (enableBodyScroll t s = Throws s) as Hthrow.
  { unfold enableBodyScroll. rewrite Hios, release_loop_absent by done.
    by destruct t. }
  split; [exact Hthrow|]. intros acts.
  change (run (Unlock t :: acts) s) with (run acts (after (enableBodyScroll t s))).
  by rewrite Hthrow.
Qed.

Lemma unlock_without_element_throws_on_touch_path_witness :
  let s := run [Lock (JsElem elemA) None] (load phone sample_page) in
  enableBodyScroll JsUndefined s = Throws s.
Proof.
  intros s.
  exact (proj1 (unlock_without_element_throws_on_touch_path s JsUndefined
                  ltac:(vm_compute; reflexivity) eq_refl)).
Defined.

(** ** Unlocking the registered targets one by one *)

Lemma run_app a b s : run (a ++ b) s = run b (run a s).
Proof. apply fold_left_app. Qed.

Lemma filter_notin_cons (e : Elem) (l all : list Elem) :
  filter (fun x => x ∉ e :: l) all = filter (fun x => x ∉ l) (filter (fun x => x <> e) all).
Proof.
  induction all as [|x all IH]; [done|].
  destruct (decide (x = e)) as [->|Hne].
  - rewrite filter_cons_False by (intros Hn; apply Hn; left).
    rewrite (filter_cons_False (fun x => x <> e)) by (intros Hn; by apply Hn). exact IH.
  - rewrite (filter_cons_True (fun x => x <> e)) by done.
    destruct (decide (x ∈ l)) as [Hl|Hl].
    + rewrite !filter_cons_False; [exact IH|by intros Hn|].
      intros Hn. apply Hn. by right.
    + rewrite !filter_cons_True; [by rewrite IH|done|].
      intros [?|?]%elem_of_cons; done.
Qed.

Lemma unlock_each_fields l s :
  registry_ok s -> isIosDevice (vars s) = true ->
  let s' := run (map (fun e => Unlock (JsElem e)) l) s in
  allTargetElements (vars s') = filter (fun x => x ∉ l) (allTargetElements (vars s)) /\
  ontouchstart (doc s') = delete_all l (ontouchstart (doc s)) /\
  ontouchmove (doc s') = delete_all l (ontouchmove (doc s)) /\
  (firstTargetElement (vars s') = firstTargetElement (vars s) \/
   truthy (firstTargetElement (vars s)) = true /\ firstTargetElement (vars s') = JsNull) /\
  initialClientY (vars s') = initialClientY (vars s) /\
  closures s' = closures s /\
  standard_view s' = standard_view s.
Proof.
  revert s. induction l as [|e l IH]; intros s Hok Hios; cbn zeta.
  - cbn [map run fold_left]. split_and!; try done; [|by left].
    symmetry. apply filter_all. intros x _ []%elem_of_nil.
  - change (run (map (fun e => Unlock (JsElem e)) (e :: l)) s)
      with (run (map (fun e => Unlock (JsElem e)) l)
              (after (enableBodyScroll (JsElem e) s))).
    destruct (enableBodyScroll_touch_fields e s Hok Hios)
      as (s1 & Hcall & Ha1 & Hh1 & Hl1 & Hs1 & Hm1 & Hf1 & Hy1 & Hc1 & Hv1).
    pose proof (enableBodyScroll_registry_ok (JsElem e) s Hok Hios) as Hok1.
    rewrite Hcall in Hok1 |- *. cbn [after] in Hok1 |- *.
    assert (isIosDevice (vars s1) = true) as Hios1.
    { apply standard_view_inv in Hv1 as (_ & _ & _ & ->). done. }
    destruct (IH s1 Hok1 Hios1) as (-> & -> & -> & Hf & -> & -> & ->).
    rewrite Ha1, Hs1, Hm1, Hy1, Hc1, Hv1, filter_notin_cons.
    split_and!; try done.
    rewrite Hf1 in Hf. unfold strict_eq in Hf.
    destruct (bool_decide (e ∈ _)); cbn [andb] in Hf; [|done].
    case_bool_decide as Heq; [|done]. right. rewrite <-Heq. split; [done|].
    by destruct Hf as [->|[_ ->]].
Qed.

(** X14.  On the touch path, unlocking every registered target, one call
    of [enableBodyScroll] each, leaves the document as one call of
    [clearAllBodyScrollLocks] does: no target, handler or body listener is
    left and the touch callbacks of the former targets are null.  The two
    differ only in the module variables they reset: the single calls leave
    [initialClientY] alone and set [firstTargetElement] to null only if it
    named an element. *)
Theorem unlock_each_is_unlockAll h p acts :
  Platform.detect (runtime h) = true ->
  let s := run acts (load h p) in
  let each := run (map (fun e => Unlock (JsElem e)) (allTargetElements (vars s))) s in
  let all := after (clearAllBodyScrollLocks s) in
  doc each = doc all /\
  allTargetElements (vars each) = [] /\ allTargetElements (vars all) = [] /\
  handlers (vars each) = [] /\ handlers (vars all) = [] /\
  timers each = timers all /\ closures each = closures all /\
  firstTargetElement (vars each) =
    (if truthy (firstTargetElement (vars s)) then JsNull
     else firstTargetElement (vars s)) /\
  firstTargetElement (vars all) = JsNull /\
  initialClientY (vars each) = initialClientY (vars s) /\
  initialClientY (vars all) = (-1)%float.
Proof.
  intros Hdet s each all. subst s each all. set (s := run acts (load h p)).
  assert (isIosDevice (vars s) = true) as Hios by (subst s; by rewrite run_isIosDevice).
  assert (registry_ok s) as Hok by apply run_registry_ok, load_registry_ok.
  set (l := map (fun e => Unlock (JsElem e)) (allTargetElements (vars s))).
  assert (registry_ok (run l s)) as Hok1.
  { subst s. rewrite <-run_app. apply run_registry_ok, load_registry_ok. }
  assert (first_registered (run l s)) as Hfr1.
  { subst s. rewrite <-run_app. apply run_first_registered. }
  destruct (unlock_each_fields (allTargetElements (vars s)) s Hok Hios)
    as (Ha & Hs & Hm & Hf & Hy & Hc & Hv). fold l in Ha, Hs, Hm, Hf, Hy, Hc, Hv.
  assert (allTargetElements (vars (run l s)) = []) as Hnil.
  { rewrite Ha. destruct (filter _ _) as [|x xs] eqn:Hfil; [done|].
    assert (x ∈ x :: xs) as Hx by left. rewrite <-Hfil in Hx.
    by apply list_elem_of_filter in Hx as [Hx1 Hx2]. }
  destruct (registry_ok_empty _ Hok1 Hnil) as (Hh1 & Hl1 & _).
  pose proof (clearAllBodyScrollLocks_registry_ok s Hok) as Hok2.
  pose proof (clearAllBodyScrollLocks_touch_standard_view s Hios) as Hv2.
  revert Hok2 Hv2. rewrite (clearAllBodyScrollLocks_touch s Hios). cbn [after].
  set (s2 := Build_State _ _ _ _ _). intros Hok2 Hv2.
  assert (allTargetElements (vars s2) = []) as Hnil2 by done.
  destruct (registry_ok_empty _ Hok2 Hnil2) as (Hh2 & Hl2 & _).
  apply standard_view_inv in Hv as (Hov & Ht & _).
  apply overflow_view_inv in Hov as (H1 & H2 & H3 & _).
  split_and!; try done.
  - apply Doc_ext; rewrite ?H1, ?H2, ?H3, ?Hl1, ?Hl2, ?Hs, ?Hm; done.
  - assert (isIosDevice (vars (run l s)) = true) as Hios1
      by (subst l; by rewrite run_isIosDevice).
    specialize (Hfr1 Hios1). rewrite Hnil in Hfr1.
    destruct Hf as [Hf|[Hf ->]]; [|by rewrite Hf]. rewrite Hf in Hfr1 |- *.
    destruct (firstTargetElement (vars s)) as [| |e0]; try done.
    by specialize (Hfr1 e0 eq_refl) as ?%elem_of_nil.
Qed.

Lemma unlock_each_is_unlockAll_witness :
  let s := run [Lock (JsElem elemA) None; Lock (JsElem elemB) None]
             (load phone busy_page) in
  doc (run (map (fun e => Unlock (JsElem e)) (allTargetElements (vars s))) s)
  = doc (after (clearAllBodyScrollLocks s)).
Proof.
  intros s.
  exact (proj1 (unlock_each_is_unlockAll phone busy_page
                  [Lock (JsElem elemA) None; Lock (JsElem elemB) None]
                  ltac:(vm_compute; reflexivity))).
Defined.
